(** * Crazy Eights: the game-state machine of [App] and its rule engine

    A shallow embedding of the turn-based state machine of the single-page
    card game: the deal ([initGame]), the legality predicate
    ([isValidMove]), the win check ([checkWin]), the handlers of the human
    intents ([handleDraw], [playCard], [handleSuitSelect]) and the scripted
    opponent (the "AI Logic" effect).

    React specifics are modelled as follows.
    - The component state is the pair of [gameState] and [message]; a
      handler is a function of the rendered snapshot (the closure value
      [gameState]) that returns a sequence of queued updates.  The updates
      [setGameState (prev => ...)] are applied in the order in which they
      are queued, each one to the result of the previous one.
    - Transitions are serialized: a handler runs on the snapshot that is the
      current state.  The opponent's 1500 ms timer is cleared whenever the
      state it depends on changes, so it is a transition guarded by the
      current state; the 1000 ms timer of [handleDraw] is never cleared, so
      its update stays pending in [pendingSkips] until it fires. *)

From Stdlib Require Import List String Ascii Bool Arith ZArith Lia Permutation.
Import ListNotations.

(** ** Data model ([types.ts]) *)

Inductive Suit := hearts | diamonds | clubs | spades.

Inductive Rank := RA | R2 | R3 | R4 | R5 | R6 | R7 | R8 | R9 | R10 | RJ | RQ | RK.

Record Card := mkCard { id : string; suit : Suit; rank : Rank }.

Inductive GameStatus := waiting | playing | suit_selection | game_over.

(** ['player' | 'ai'], the type of [currentTurn] and of a non-null [winner]. *)
Inductive Side := player | ai.

Record GameState := mkGameState {
  deck : list Card;
  discardPile : list Card;
  playerHand : list Card;
  aiHand : list Card;
  currentTurn : Side;
  status : GameStatus;
  winner : option Side;
  activeSuit : option Suit
}.

Definition Suit_eqb (a b : Suit) : bool :=
  match a, b with
  | hearts, hearts | diamonds, diamonds | clubs, clubs | spades, spades => true
  | _, _ => false
  end.

Definition Rank_eqb (a b : Rank) : bool :=
  match a, b with
  | RA, RA | R2, R2 | R3, R3 | R4, R4 | R5, R5 | R6, R6 | R7, R7
  | R8, R8 | R9, R9 | R10, R10 | RJ, RJ | RQ, RQ | RK, RK => true
  | _, _ => false
  end.

Definition Side_eqb (a b : Side) : bool :=
  match a, b with
  | player, player | ai, ai => true
  | _, _ => false
  end.

Definition GameStatus_eqb (a b : GameStatus) : bool :=
  match a, b with
  | waiting, waiting | playing, playing
  | suit_selection, suit_selection | game_over, game_over => true
  | _, _ => false
  end.

(** [card.suit === gameState.activeSuit], where [activeSuit] may be [null]. *)
Definition activeSuit_is (s : Suit) (a : option Suit) : bool :=
  match a with
  | Some s' => Suit_eqb s s'
  | None => false
  end.

(** The suit as it is interpolated into a message. *)
Definition suitName (s : Suit) : string :=
  match s with
  | hearts => "hearts"
  | diamonds => "diamonds"
  | clubs => "clubs"
  | spades => "spades"
  end.

(** ** The array operations the handlers use *)

Module Js.

Section Arrays.
Context {A : Type}.

(** [arr[arr.length - 1]]: [None] stands for [undefined]. *)
Definition lastElem (l : list A) : option A :=
  match rev l with
  | [] => None
  | x :: _ => Some x
  end.

(** [arr.pop()]: the removed last element and the array left. *)
Definition pop (l : list A) : option A * list A :=
  (lastElem l, removelast l).

Fixpoint findIndexFrom (p : A -> bool) (l : list A) (i : Z) : Z :=
  match l with
  | [] => (-1)%Z
  | x :: t => if p x then i else findIndexFrom p t (i + 1)%Z
  end.

(** [arr.findIndex(p)]: the index of the first match, [-1] without one. *)
Definition findIndex (p : A -> bool) (l : list A) : Z :=
  findIndexFrom p l 0%Z.

(** [arr.splice(start, count)]: the removed elements and the array left.
    A negative [start] counts from the end; a [start] past the end is
    the end. *)
Definition splice (start : Z) (count : nat) (l : list A)
  : list A * list A :=
  let len := Z.of_nat (List.length l) in
  let s := if (start <? 0)%Z then Z.max (len + start) 0
           else Z.min start len in
  let n := Z.to_nat s in
  (firstn count (skipn n l), firstn n l ++ skipn count (skipn n l)).

(** [arr.find(p)]. *)
Definition find (p : A -> bool) (l : list A) : option A :=
  List.find p l.

(** [arr.reduce(f)] without an initial value, on the non-empty array
    [x :: t]: the first element seeds the accumulator. *)
Definition reduce (f : A -> A -> A) (x : A) (t : list A) : A :=
  fold_left f t x.
End Arrays.

End Js.

(** ** The component state and its queued updates *)

(** [pendingSkips] counts the timeouts that [handleDraw] has scheduled on an
    empty deck and that have not fired yet. *)
Record App := mkApp {
  gameState : GameState;
  message : string;
  pendingSkips : nat
}.

(** A handler's effect: queued updates, run against the component state. *)
Definition Update (A : Type) : Type := App -> A * App.

Definition ret {A} (a : A) : Update A := fun app => (a, app).

Definition bind {A B} (m : Update A) (k : A -> Update B) : Update B :=
  fun app => let '(a, app') := m app in k a app'.

Declare Scope update_scope.
Delimit Scope update_scope with update.
Notation "x <- m ;; k" := (bind m (fun x => k))
  (at level 61, m at next level, right associativity) : update_scope.
Notation "m ;; k" := (bind m (fun _ => k))
  (at level 61, right associativity) : update_scope.
Open Scope update_scope.

Definition setGameState (f : GameState -> GameState) : Update unit :=
  fun app => (tt, mkApp (f (gameState app)) (message app) (pendingSkips app)).

Definition setMessage (m : string) : Update unit :=
  fun app => (tt, mkApp (gameState app) m (pendingSkips app)).

(** [setTimeout(() => setGameState(prev => ({...prev, currentTurn: 'ai'})), 1000)] *)
Definition scheduleSkip : Update unit :=
  fun app => (tt, mkApp (gameState app) (message app) (S (pendingSkips app))).

(** The state a handler leaves behind. *)
Definition exec {A} (m : Update A) (app : App) : App := snd (m app).

(** Field updates, for the object spreads [{...prev, field: value}]. *)
Definition set_deck (v : list Card) (g : GameState) : GameState :=
  mkGameState v (discardPile g) (playerHand g) (aiHand g)
              (currentTurn g) (status g) (winner g) (activeSuit g).

Definition set_discardPile (v : list Card) (g : GameState) : GameState :=
  mkGameState (deck g) v (playerHand g) (aiHand g)
              (currentTurn g) (status g) (winner g) (activeSuit g).

Definition set_playerHand (v : list Card) (g : GameState) : GameState :=
  mkGameState (deck g) (discardPile g) v (aiHand g)
              (currentTurn g) (status g) (winner g) (activeSuit g).

Definition set_aiHand (v : list Card) (g : GameState) : GameState :=
  mkGameState (deck g) (discardPile g) (playerHand g) v
              (currentTurn g) (status g) (winner g) (activeSuit g).

Definition set_currentTurn (v : Side) (g : GameState) : GameState :=
  mkGameState (deck g) (discardPile g) (playerHand g) (aiHand g)
              v (status g) (winner g) (activeSuit g).

Definition set_status (v : GameStatus) (g : GameState) : GameState :=
  mkGameState (deck g) (discardPile g) (playerHand g) (aiHand g)
              (currentTurn g) v (winner g) (activeSuit g).

Definition set_winner (v : option Side) (g : GameState) : GameState :=
  mkGameState (deck g) (discardPile g) (playerHand g) (aiHand g)
              (currentTurn g) (status g) v (activeSuit g).

Definition set_activeSuit (v : option Suit) (g : GameState) : GameState :=
  mkGameState (deck g) (discardPile g) (playerHand g) (aiHand g)
              (currentTurn g) (status g) (winner g) v.

(** [[isPlayer ? 'playerHand' : 'aiHand']: h] *)
Definition set_hand (isPlayer : bool) (h : list Card) (g : GameState)
  : GameState :=
  if isPlayer then set_playerHand h g else set_aiHand h g.

(** [isPlayer ? gameState.playerHand : gameState.aiHand] *)
Definition handOf (isPlayer : bool) (gs : GameState) : list Card :=
  if isPlayer then playerHand gs else aiHand gs.

Definition sideOf (isPlayer : bool) : Side := if isPlayer then player else ai.

(** [c => c.id !== card.id] *)
Definition otherThan (card : Card) (c : Card) : bool :=
  negb (String.eqb (id c) (id card)).

(** The state of [useState] before the first deal. *)
Definition initialState : GameState :=
  mkGameState [] [] [] [] player waiting None None.

Definition initialApp : App :=
  mkApp initialState "Welcome to Lorrin Crazy Eights!" 0.

(** ** Rule engine *)

Definition topDiscard (gs : GameState) : option Card :=
  Js.lastElem (discardPile gs).

Definition isValidMove (gs : GameState) (card : Card) : bool :=
  if Rank_eqb (rank card) R8 then true
  else match topDiscard gs with
       | None => false
       | Some top =>
           activeSuit_is (suit card) (activeSuit gs)
           || Rank_eqb (rank card) (rank top)
       end.

(** ** Game state machine *)

(** [initGame], on the array that [shuffleDeck(createDeck())] returns (both
    are imported from [./constants]).  The result is [None] when reading
    [discardPile[0].suit] throws, which leaves the component state as it
    was. *)
Definition initGame (shuffled : list Card) (app : App) : option App :=
  let fullDeck := shuffled in
  let '(playerHand, fullDeck) := Js.splice 0 8 fullDeck in
  let '(aiHand, fullDeck) := Js.splice 0 8 fullDeck in
  let firstDiscardIdx :=
    Js.findIndex (fun c => negb (Rank_eqb (rank c) R8)) fullDeck in
  let firstDiscardIdx :=
    if (firstDiscardIdx =? -1)%Z then 0%Z else firstDiscardIdx in
  let '(discardPile, fullDeck) :=
    if negb (firstDiscardIdx =? -1)%Z
    then Js.splice firstDiscardIdx 1 fullDeck
    else let '(popped, rest) := Js.pop fullDeck in
         (match popped with Some c => [c] | None => [] end, rest) in
  match discardPile with
  | [] => None
  | first :: _ =>
      Some (exec (setGameState (fun _ =>
                    mkGameState fullDeck discardPile playerHand aiHand
                                player playing None (Some (suit first))) ;;
                  setMessage "Your turn! Match the suit or rank.") app)
  end.

Definition checkWin (hand : list Card) (turn : Side) : Update bool :=
  if (List.length hand =? 0)%nat
  then setGameState (fun prev => set_winner (Some turn) (set_status game_over prev)) ;;
       ret true
  else ret false.

Definition handleDraw (gs : GameState) : Update unit :=
  if negb (Side_eqb (currentTurn gs) player)
     || negb (GameStatus_eqb (status gs) playing)
  then ret tt
  else if (List.length (deck gs) =? 0)%nat
  then setMessage "Deck is empty! Skipping turn." ;;
       scheduleSkip
  else
    match Js.pop (deck gs) with
    | (Some drawnCard, newDeck) =>
        setGameState (fun prev =>
          set_currentTurn ai
            (set_playerHand (playerHand prev ++ [drawnCard])
               (set_deck newDeck prev))) ;;
        setMessage "You drew a card."
    | (None, _) => ret tt
    end.

Definition playCard (gs : GameState) (card : Card) (isPlayer : bool)
  : Update unit :=
  if negb (isValidMove gs card)
  then (if isPlayer
        then setMessage "Invalid move! Match suit or rank, or play an 8."
        else ret tt)
  else
    let newHand := filter (otherThan card) (handOf isPlayer gs) in
    let newDiscard := discardPile gs ++ [card] in
    if Rank_eqb (rank card) R8
    then
      setGameState (fun prev =>
        set_activeSuit (if isPlayer then activeSuit prev else None)
          (set_status (if isPlayer then suit_selection else status prev)
             (set_hand isPlayer newHand
                (set_discardPile newDiscard prev)))) ;;
      (if isPlayer then setMessage "Crazy 8! Choose a new suit." else ret tt)
    else
      won <- checkWin newHand (sideOf isPlayer) ;;
      if negb won
      then
        setGameState (fun prev =>
          set_activeSuit (Some (suit card))
            (set_currentTurn (if isPlayer then ai else player)
               (set_hand isPlayer newHand
                  (set_discardPile newDiscard prev)))) ;;
        setMessage (if isPlayer then "AI's turn..." else "Your turn!")
      else
        setGameState (fun prev =>
          set_hand isPlayer newHand (set_discardPile newDiscard prev)).

Definition handleSuitSelect (s : Suit) : Update unit :=
  setGameState (fun prev =>
    set_currentTurn ai (set_status playing (set_activeSuit (Some s) prev))) ;;
  setMessage ("Suit changed to " ++ suitName s ++ ". AI's turn...")%string.

(** ** Opponent policy (the "AI Logic" effect) *)

(** [suitCounts: Record<Suit, number>], a tally over the four suits. *)
Definition SuitCounts : Type := Suit -> nat.

(** [{ hearts: 0, diamonds: 0, clubs: 0, spades: 0 }] *)
Definition zeroCounts : SuitCounts := fun _ => 0.

(** [suitCounts[s]++] *)
Definition increment (s : Suit) (m : SuitCounts) : SuitCounts :=
  fun x => if Suit_eqb x s then S (m x) else m x.

(** [aiHand.forEach(c => { if (c.id !== cardToPlay.id) suitCounts[c.suit]++ })] *)
Definition suitCounts (hand : list Card) (cardToPlay : Card) : SuitCounts :=
  fold_left
    (fun m c => if otherThan cardToPlay c then increment (suit c) m else m)
    hand zeroCounts.

(** [Object.keys(suitCounts).reduce((a, b) => suitCounts[a] > suitCounts[b] ? a : b)];
    the keys come in the order of the object literal. *)
Definition bestSuit (hand : list Card) (cardToPlay : Card) : Suit :=
  let counts := suitCounts hand cardToPlay in
  Js.reduce (fun a b => if counts b <? counts a then a else b)
            hearts [diamonds; clubs; spades].

Definition playableCards (gs : GameState) : list Card :=
  filter (isValidMove gs) (aiHand gs).

(** [nonEight || playableCards[0]]; [None] when nothing is playable. *)
Definition cardToPlay (gs : GameState) : option Card :=
  match playableCards gs with
  | [] => None
  | first :: _ =>
      match Js.find (fun c => negb (Rank_eqb (rank c) R8)) (playableCards gs) with
      | Some nonEight => Some nonEight
      | None => Some first
      end
  end.

Definition isNull {A} (o : option A) : bool :=
  match o with
  | None => true
  | Some _ => false
  end.

(** The guard of the effect, under which its timer is armed. *)
Definition aiToMove (gs : GameState) : bool :=
  Side_eqb (currentTurn gs) ai
  && GameStatus_eqb (status gs) playing
  && isNull (winner gs).

(** The body of the timer callback. *)
Definition aiMove (gs : GameState) : Update unit :=
  match cardToPlay gs with
  | Some card =>
      if Rank_eqb (rank card) R8
      then
        let best := bestSuit (aiHand gs) card in
        let newHand := filter (otherThan card) (aiHand gs) in
        let newDiscard := discardPile gs ++ [card] in
        won <- checkWin newHand ai ;;
        setGameState (fun prev =>
          set_currentTurn player
            (set_activeSuit (Some best)
               (set_aiHand newHand (set_discardPile newDiscard prev)))) ;;
        setMessage ("AI played an 8 and chose " ++ suitName best
                    ++ ". Your turn!")%string
      else playCard gs card false
  | None =>
      if (0 <? List.length (deck gs))%nat
      then
        match Js.pop (deck gs) with
        | (Some drawnCard, newDeck) =>
            setGameState (fun prev =>
              set_currentTurn player
                (set_aiHand (aiHand prev ++ [drawnCard])
                   (set_deck newDeck prev))) ;;
            setMessage "AI drew a card. Your turn!"
        | (None, _) => ret tt
        end
      else
        setGameState (fun prev => set_currentTurn player prev) ;;
        setMessage "AI skipped turn. Your turn!"
  end.

Definition aiEffect (gs : GameState) : Update unit :=
  if aiToMove gs then aiMove gs else ret tt.

(** ** The intents the rendered page dispatches *)

(** [disabled={gameState.currentTurn !== 'player' || gameState.status !== 'playing'}],
    on the cards of the player's hand and on the draw pile. *)
Definition disabled (gs : GameState) : bool :=
  negb (Side_eqb (currentTurn gs) player)
  || negb (GameStatus_eqb (status gs) playing).

(** A click on a card of the player's hand:
    [onClick={!disabled ? onClick : undefined}] with
    [onClick={() => playCard(card, true)}]. *)
Definition clickCard (card : Card) : Update unit :=
  fun app =>
    if disabled (gameState app) then ret tt app
    else playCard (gameState app) card true app.

(** A click on the draw pile. *)
Definition clickDrawPile : Update unit :=
  fun app =>
    if disabled (gameState app) then ret tt app
    else handleDraw (gameState app) app.

(** The opponent's timer fires on the state it was armed for. *)
Definition aiTimer : Update unit :=
  fun app => aiEffect (gameState app) app.

(** A pending timeout of [handleDraw] fires. *)
Definition skipTimer : Update unit :=
  fun app =>
    match pendingSkips app with
    | 0 => ret tt app
    | S n =>
        (tt, mkApp (set_currentTurn ai (gameState app)) (message app) n)
    end.

(** [isHighlighted={isValidMove(card) && gameState.currentTurn === 'player'}],
    on the cards of the player's hand. *)
Definition isHighlighted (gs : GameState) (card : Card) : bool :=
  isValidMove gs card && Side_eqb (currentTurn gs) player.

(** [gameState.status === 'suit_selection' && <SuitSelector ... />] *)
Definition showsSuitSelector (gs : GameState) : bool :=
  GameStatus_eqb (status gs) suit_selection.

(** A click on a suit button, the suit-selection intent:
    [onClick={() => onSelect(suit)}] with [onSelect={handleSuitSelect}].
    The buttons belong to [SuitSelector], the only caller of
    [handleSuitSelect], which is rendered only under the condition above;
    where it is not rendered there is no button and nothing is
    dispatched. *)
Definition clickSuit (s : Suit) : Update unit :=
  fun app =>
    if showsSuitSelector (gameState app) then handleSuitSelect s app
    else ret tt app.

(** [gameState.status === 'game_over' && gameState.winner && <GameOverModal ... />] *)
Definition showsGameOver (gs : GameState) : bool :=
  GameStatus_eqb (status gs) game_over && negb (isNull (winner gs)).

(** ** Runs of the game *)

Definition allCards (gs : GameState) : list Card :=
  deck gs ++ discardPile gs ++ playerHand gs ++ aiHand gs.

Section Runs.

(** The array that [createDeck()] returns; [shuffleDeck] returns one of its
    permutations. *)
Variable pack : list Card.

(** One transition.  The cards that can be clicked are those rendered from
    [playerHand]; the suit buttons are rendered only in [suit_selection]
    status. *)
Inductive step : App -> App -> Prop :=
| step_restart : forall shuffled app app',
    Permutation shuffled pack ->
    initGame shuffled app = Some app' ->
    step app app'
| step_card : forall card app,
    In card (playerHand (gameState app)) ->
    step app (exec (clickCard card) app)
| step_draw : forall app,
    step app (exec clickDrawPile app)
| step_suit : forall s app,
    status (gameState app) = suit_selection ->
    step app (exec (handleSuitSelect s) app)
| step_ai : forall app,
    step app (exec aiTimer app)
| step_skip : forall app,
    step app (exec skipTimer app).

(** The states after initialization: the first deal, then any transitions. *)
Inductive reachable : App -> Prop :=
| reach_init : forall shuffled app',
    Permutation shuffled pack ->
    initGame shuffled initialApp = Some app' ->
    reachable app'
| reach_step : forall app app',
    reachable app -> step app app' -> reachable app'.

End Runs.

(** ** A concrete pack, for running the machine *)

Definition SUITS : list Suit := [hearts; diamonds; clubs; spades].

Definition RANKS : list Rank :=
  [RA; R2; R3; R4; R5; R6; R7; R8; R9; R10; RJ; RQ; RK].

Definition rankName (r : Rank) : string :=
  match r with
  | RA => "A" | R2 => "2" | R3 => "3" | R4 => "4" | R5 => "5" | R6 => "6"
  | R7 => "7" | R8 => "8" | R9 => "9" | R10 => "10" | RJ => "J" | RQ => "Q"
  | RK => "K"
  end.

(** Modelled from the spec: [createDeck] lives in [./constants], which is not
    among the sources.  It "produces the 52 combinations of {4 suits} x
    {13 ranks}, each tagged with a unique identifier; deterministic ordering
    (suit-major or rank-major, consistent)".  The identifier chosen here is
    the rank and the suit joined by a dash; the theorems below depend only on
    the identifiers being pairwise distinct. *)
Definition createDeck : list Card :=
  flat_map
    (fun s => map (fun r => mkCard (rankName r ++ "-" ++ suitName s)%string s r)
                  RANKS)
    SUITS.

(** The card of [createDeck] with a given rank and suit. *)
Definition card (r : Rank) (s : Suit) : Card :=
  mkCard (rankName r ++ "-" ++ suitName s)%string s r.

(** ** Vocabulary of the properties *)

(** [x] is the first element of [l], in order, that satisfies [p]. *)
Definition firstWith {A} (p : A -> bool) (l : list A) (x : A) : Prop :=
  exists l1 l2,
    l = l1 ++ x :: l2 /\ p x = true /\ forall y, In y l1 -> p y = false.

Definition isEight (c : Card) : bool := Rank_eqb (rank c) R8.

(** How many cards of [l] have suit [s]. *)
Definition countSuit (l : list Card) (s : Suit) : nat :=
  List.length (filter (fun c => Suit_eqb s (suit c)) l).

(** The position of a suit in the enumeration hearts, diamonds, clubs,
    spades. *)
Definition suitIndex (s : Suit) : nat :=
  match s with
  | hearts => 0
  | diamonds => 1
  | clubs => 2
  | spades => 3
  end.

(** One side moved [c] from its hand to the top of the discard pile. *)
Definition played (isPlayer : bool) (c : Card) (gs gs' : GameState) : Prop :=
  discardPile gs' = discardPile gs ++ [c]
  /\ handOf isPlayer gs' = filter (otherThan c) (handOf isPlayer gs)
  /\ handOf (negb isPlayer) gs' = handOf (negb isPlayer) gs
  /\ deck gs' = deck gs.

Definition aiPlayed (c : Card) (gs gs' : GameState) : Prop :=
  played false c gs gs'.

(** One side took the last card [x] of the deck into its hand. *)
Definition drew (isPlayer : bool) (x : Card) (gs gs' : GameState) : Prop :=
  deck gs = deck gs' ++ [x]
  /\ handOf isPlayer gs' = handOf isPlayer gs ++ [x]
  /\ handOf (negb isPlayer) gs' = handOf (negb isPlayer) gs
  /\ discardPile gs' = discardPile gs.

(** The four piles are as they were. *)
Definition samePiles (gs gs' : GameState) : Prop :=
  deck gs' = deck gs
  /\ discardPile gs' = discardPile gs
  /\ playerHand gs' = playerHand gs
  /\ aiHand gs' = aiHand gs.

(** The partition property: the four piles together are the pack, up to
    order. *)
Definition partitionOf (pack : list Card) (gs : GameState) : Prop :=
  Permutation (allCards gs) pack.

(** A decidable check that a list has no repeated element. *)
Fixpoint distinctb (l : list string) : bool :=
  match l with
  | [] => true
  | x :: t => negb (existsb (String.eqb x) t) && distinctb t
  end.

(** The starting discard as the specification words it: the first card of
    the remaining deck that is not an eight, and the last card of the
    remaining deck when all of them are eights. *)
Definition specStartingDiscard (remaining : list Card) : option Card :=
  match List.find (fun c => negb (isEight c)) remaining with
  | Some c => Some c
  | None => Js.lastElem remaining
  end.

(** The suit choice as the specification words it: the first suit, in the
    enumeration order, whose count is maximal. *)
Definition specBestSuit (counts : Suit -> nat) : Suit :=
  fold_left (fun a b => if counts a <? counts b then b else a)
            [diamonds; clubs; spades] hearts.

(** Status and winner are as they were. *)
Definition statusKept (gs gs' : GameState) : Prop :=
  status gs' = status gs /\ winner gs' = winner gs.

(** What an accepted play does to status and winner: it ends the game for
    the side that played, or opens the suit selection (the human's eight),
    or leaves both as they were. *)
Inductive playOutcome (isPlayer : bool) (c : Card) (gs gs' : GameState)
  : Prop :=
| outcome_win :
    handOf isPlayer gs' = [] ->
    status gs' = game_over ->
    winner gs' = Some (sideOf isPlayer) ->
    playOutcome isPlayer c gs gs'
| outcome_suit_selection :
    isPlayer = true -> rank c = R8 ->
    status gs' = suit_selection -> winner gs' = winner gs ->
    playOutcome isPlayer c gs gs'
| outcome_continue :
    handOf isPlayer gs' <> [] -> statusKept gs gs' ->
    playOutcome isPlayer c gs gs'.

(** What a transition other than a deal does to the game state. *)
Inductive effect (gs gs' : GameState) : Prop :=
| effect_none :
    samePiles gs gs' -> statusKept gs gs' -> effect gs gs'
| effect_play : forall isPlayer c,
    currentTurn gs = sideOf isPlayer -> status gs = playing ->
    In c (handOf isPlayer gs) -> isValidMove gs c = true ->
    played isPlayer c gs gs' -> playOutcome isPlayer c gs gs' ->
    effect gs gs'
| effect_draw : forall isPlayer x,
    currentTurn gs = sideOf isPlayer -> status gs = playing ->
    drew isPlayer x gs gs' -> statusKept gs gs' -> effect gs gs'
| effect_suit :
    samePiles gs gs' -> status gs = suit_selection ->
    status gs' = playing -> winner gs' = winner gs -> effect gs gs'.

(** The winner is set exactly in the [game_over] status. *)
Definition winnerIffOver (gs : GameState) : Prop :=
  (status gs = game_over -> exists w, winner gs = Some w)
  /\ (status gs <> game_over -> winner gs = None).

Definition Card_eqb (a b : Card) : bool :=
  String.eqb (id a) (id b)
  && Suit_eqb (suit a) (suit b)
  && Rank_eqb (rank a) (rank b).

(** A decidable check that the four piles of a state hold the cards of
    [createDeck], each once. *)
Definition wellFormedb (gs : GameState) : bool :=
  (List.length (allCards gs) =? 52)
  && distinctb (map id (allCards gs))
  && forallb (fun c => existsb (Card_eqb c) createDeck) (allCards gs).

(** ** Concrete states *)

(** The state after dealing the unshuffled pack. *)
Definition dealt : App :=
  match initGame createDeck initialApp with
  | Some app => app
  | None => initialApp
  end.

Definition without (taken : list Card) (l : list Card) : list Card :=
  filter (fun c => negb (existsb (String.eqb (id c)) (map id taken))) l.

(** The state after the human has played the four of hearts on the four of
    diamonds of the fresh deal; the opponent is to move. *)
Definition afterFirstPlay : App := exec (clickCard (card R4 hearts)) dealt.

(** The player's turn with a single card in hand, the eight of hearts; the
    five of clubs is on top of the discard pile. *)
Definition lastCardEight : App :=
  let ph := [card R8 hearts] in
  let ah := [card R2 hearts; card R3 diamonds] in
  let dp := [card RK clubs; card R5 clubs] in
  mkApp (mkGameState (without (ph ++ ah ++ dp) createDeck) dp ph ah
                     player playing None (Some clubs))
        "Your turn!" 0.

(** The opponent's turn; its only playable card is the eight of spades, and
    it also holds one heart and one diamond. *)
Definition aiHoldsEight : App :=
  let ph := [card R9 hearts] in
  let ah := [card R8 spades; card R2 hearts; card R3 diamonds] in
  let dp := [card RK clubs; card R5 clubs] in
  mkApp (mkGameState (without (ph ++ ah ++ dp) createDeck) dp ph ah
                     ai playing None (Some clubs))
        "AI's turn..." 0.

(** A shuffle that leaves only two eights after the two hands are dealt. *)
Definition eightsLeft : list Card :=
  [card RA hearts; card R2 hearts; card R3 hearts; card R4 hearts;
   card R5 hearts; card R6 hearts; card R7 hearts; card R9 hearts;
   card RA spades; card R2 spades; card R3 spades; card R4 spades;
   card R5 spades; card R6 spades; card R7 spades; card R9 spades;
   card R8 hearts; card R8 spades].

(** The player's turn on an empty deck. *)
Definition deckRunOut : App :=
  mkApp (mkGameState [] [card RK clubs; card R5 clubs]
                     [card R9 hearts; card R8 hearts]
                     [card R2 hearts; card R3 diamonds]
                     player playing None (Some clubs))
        "Your turn!" 0.

(** The opponent's turn with its last card, the eight of spades. *)
Definition aiLastEight : App :=
  mkApp (mkGameState [card RA spades] [card RK clubs; card R5 clubs]
                     [card R9 hearts] [card R8 spades]
                     ai playing None (Some clubs))
        "AI's turn..." 0.

(** The opponent's turn with no playable card and a card left in the deck. *)
Definition aiMustDraw : App :=
  mkApp (mkGameState [card RA spades; card R7 clubs]
                     [card RK clubs; card R5 clubs]
                     [card R9 hearts] [card R2 hearts; card R3 diamonds]
                     ai playing None (Some clubs))
        "AI's turn..." 0.

(** A game in progress with one timeout of [handleDraw] still pending. *)
Definition skipPending : App :=
  mkApp (gameState deckRunOut) "Deck is empty! Skipping turn." 1.

(** What holds of discard pile and active suit once the game has started:
    the pile has a top card and the active suit is set; while the game is
    not over, a top card that is not an eight has the active suit; and the
    suit selector is open only on an eight. *)
Definition discardInv (gs : GameState) : Prop :=
  (exists top, topDiscard gs = Some top)
  /\ (exists s, activeSuit gs = Some s)
  /\ (status gs <> game_over ->
      forall top, topDiscard gs = Some top -> rank top <> R8 ->
                  activeSuit gs = Some (suit top))
  /\ (status gs = suit_selection ->
      exists top, topDiscard gs = Some top /\ rank top = R8).

(** * Properties *)

(** ** Equality tests *)

Lemma Rank_eqb_eq (a b : Rank) : Rank_eqb a b = true <-> a = b.
Proof. destruct a, b; simpl; split; intro H; congruence. Qed.

Lemma Suit_eqb_eq (a b : Suit) : Suit_eqb a b = true <-> a = b.
Proof. destruct a, b; simpl; split; intro H; congruence. Qed.

Lemma Side_eqb_eq (a b : Side) : Side_eqb a b = true <-> a = b.
Proof. destruct a, b; simpl; split; intro H; congruence. Qed.

Lemma GameStatus_eqb_eq (a b : GameStatus) : GameStatus_eqb a b = true <-> a = b.
Proof. destruct a, b; simpl; split; intro H; congruence. Qed.

Lemma activeSuit_is_eq (s : Suit) (a : option Suit) :
  activeSuit_is s a = true <-> a = Some s.
Proof.
  destruct a as [s'|]; simpl.
  - rewrite Suit_eqb_eq. split; intro H; congruence.
  - split; intro H; discriminate.
Qed.

Lemma disabled_false (gs : GameState) :
  disabled gs = false <-> currentTurn gs = player /\ status gs = playing.
Proof.
  unfold disabled. rewrite orb_false_iff, !negb_false_iff.
  now rewrite Side_eqb_eq, GameStatus_eqb_eq.
Qed.

Lemma disabled_true (gs : GameState) :
  currentTurn gs <> player \/ status gs <> playing -> disabled gs = true.
Proof.
  intros H. destruct (disabled gs) eqn:E; [reflexivity|].
  apply disabled_false in E. tauto.
Qed.

Lemma aiToMove_true (gs : GameState) :
  aiToMove gs = true <->
  currentTurn gs = ai /\ status gs = playing /\ winner gs = None.
Proof.
  unfold aiToMove. rewrite !andb_true_iff, Side_eqb_eq, GameStatus_eqb_eq.
  destruct (winner gs); simpl; intuition congruence.
Qed.

(** ** Rule engine *)

(** C4: with a top discard card, [isValidMove] holds exactly for an eight,
    a card of the active suit, or a card of the top discard's rank; and it
    is [false] when none of the three holds. *)
Theorem isValidMove_with_top (gs : GameState) (c top : Card)
  (Htop : topDiscard gs = Some top) :
  (isValidMove gs c = true <->
     rank c = R8 \/ activeSuit gs = Some (suit c) \/ rank c = rank top)
  /\ (rank c <> R8 -> activeSuit gs <> Some (suit c) -> rank c <> rank top ->
      isValidMove gs c = false).
Proof.
  assert (E : isValidMove gs c = true <->
              rank c = R8 \/ activeSuit gs = Some (suit c) \/ rank c = rank top).
  { unfold isValidMove. rewrite Htop.
    destruct (Rank_eqb (rank c) R8) eqn:E8.
    - apply Rank_eqb_eq in E8. tauto.
    - rewrite orb_true_iff, activeSuit_is_eq, Rank_eqb_eq.
      split; [tauto|]. intros [H|H]; [|exact H].
      apply Rank_eqb_eq in H. congruence. }
  split; [exact E|].
  intros H1 H2 H3. destruct (isValidMove gs c); [|reflexivity].
  destruct E as [E _]. destruct (E eq_refl) as [H|[H|H]]; contradiction.
Qed.

Lemma isValidMove_with_top_witness :
  isValidMove (gameState lastCardEight) (card R5 hearts) = true.
Proof.
  apply (isValidMove_with_top (gameState lastCardEight) (card R5 hearts)
                              (card R5 clubs) eq_refl).
  right; right; reflexivity.
Defined.

(** C5, as the code has it: without a top discard card, [isValidMove] is
    [false] for every card that is not an eight, and [true] for an eight. *)
Theorem isValidMove_without_top (gs : GameState) (c : Card)
  (Htop : topDiscard gs = None) :
  isValidMove gs c = isEight c
  /\ (rank c <> R8 -> isValidMove gs c = false)
  /\ (rank c = R8 -> isValidMove gs c = true).
Proof.
  unfold isValidMove, isEight. rewrite Htop.
  destruct (Rank_eqb (rank c) R8) eqn:E8.
  - apply Rank_eqb_eq in E8. repeat split; congruence.
  - repeat split. intros H. apply Rank_eqb_eq in H. congruence.
Qed.

Lemma isValidMove_without_top_witness :
  isValidMove initialState (card R5 hearts) = false.
Proof.
  apply (isValidMove_without_top initialState (card R5 hearts) eq_refl).
  discriminate.
Defined.

(** C5, as stated, fails: on the empty discard pile of the state before the
    deal, the eight of hearts is a valid move. *)
Lemma isValidMove_eight_without_top :
  topDiscard initialState = None
  /\ isValidMove initialState (card R8 hearts) <> false.
Proof. split; [reflexivity|]. vm_compute. discriminate. Qed.

(** ** Rejected plays *)

Lemma playCard_invalid_player (gs : GameState) (c : Card) (app : App) :
  isValidMove gs c = false ->
  exec (playCard gs c true) app
  = mkApp (gameState app) "Invalid move! Match suit or rank, or play an 8."
          (pendingSkips app).
Proof. intros H. unfold playCard. rewrite H. reflexivity. Qed.

Lemma playCard_invalid_ai (gs : GameState) (c : Card) (app : App) :
  isValidMove gs c = false -> exec (playCard gs c false) app = app.
Proof. intros H. unfold playCard. rewrite H. now destruct app. Qed.

Lemma aiTimer_not_to_move (app : App) :
  aiToMove (gameState app) = false -> exec aiTimer app = app.
Proof.
  intros H. unfold exec, aiTimer, aiEffect. rewrite H. now destruct app.
Qed.

(** C7: a play attempt of the human that is out of turn, that comes in a
    status other than [playing], or whose card is not a valid move, leaves
    the game state (deck, discard pile, hands, turn, status, winner, active
    suit) as it was; only the message may change, and only to the
    invalid-move message.  An invalid card handed to [playCard] for the
    opponent changes nothing at all, the message included. *)
Theorem rejected_play_is_noop (app : App) (c : Card)
  (Hrej : currentTurn (gameState app) <> player
          \/ status (gameState app) <> playing
          \/ isValidMove (gameState app) c = false) :
  gameState (exec (clickCard c) app) = gameState app
  /\ (message (exec (clickCard c) app) = message app
      \/ message (exec (clickCard c) app)
         = "Invalid move! Match suit or rank, or play an 8."%string)
  /\ (isValidMove (gameState app) c = false ->
      exec (playCard (gameState app) c false) app = app).
Proof.
  split; [|split].
  - unfold clickCard, exec.
    destruct (disabled (gameState app)) eqn:D; [reflexivity|].
    apply disabled_false in D.
    destruct Hrej as [H|[H|H]]; try tauto.
    fold (exec (playCard (gameState app) c true) app).
    now rewrite playCard_invalid_player.
  - unfold clickCard, exec.
    destruct (disabled (gameState app)) eqn:D; [left; reflexivity|].
    apply disabled_false in D.
    destruct Hrej as [H|[H|H]]; try tauto.
    fold (exec (playCard (gameState app) c true) app).
    right. now rewrite playCard_invalid_player.
  - apply playCard_invalid_ai.
Qed.

Lemma rejected_play_is_noop_witness :
  gameState (exec (clickCard (card R9 hearts)) aiHoldsEight)
  = gameState aiHoldsEight.
Proof.
  apply (rejected_play_is_noop aiHoldsEight (card R9 hearts)).
  left. discriminate.
Defined.

(** ** Suit selection *)

(** What [handleSuitSelect] writes: the active suit, the status [playing]
    and the turn of the opponent; the piles, the hands and the winner stay. *)
Lemma handleSuitSelect_sets (s : Suit) (app : App) :
  let gs := gameState app in
  let gs' := gameState (exec (handleSuitSelect s) app) in
  activeSuit gs' = Some s
  /\ status gs' = playing
  /\ currentTurn gs' = ai
  /\ deck gs' = deck gs
  /\ discardPile gs' = discardPile gs
  /\ playerHand gs' = playerHand gs
  /\ aiHand gs' = aiHand gs
  /\ winner gs' = winner gs.
Proof. repeat split. Qed.

Lemma showsSuitSelector_true (gs : GameState) :
  showsSuitSelector gs = true <-> status gs = suit_selection.
Proof. apply GameStatus_eqb_eq. Qed.

(** C8: the suit-selection intent is valid only in [suit_selection] status.
    In every state whose status is not [suit_selection] it leaves the game
    state (and the message) unchanged; in [suit_selection] status it sets
    the active suit to the chosen suit, the status to [playing] and the turn
    to the opponent, and leaves the piles, the hands and the winner as they
    were. *)
Theorem clickSuit_only_in_suit_selection (s : Suit) (app : App) :
  (status (gameState app) <> suit_selection ->
   exec (clickSuit s) app = app
   /\ gameState (exec (clickSuit s) app) = gameState app)
  /\ (status (gameState app) = suit_selection ->
      let gs := gameState app in
      let gs' := gameState (exec (clickSuit s) app) in
      activeSuit gs' = Some s
      /\ status gs' = playing
      /\ currentTurn gs' = ai
      /\ deck gs' = deck gs
      /\ discardPile gs' = discardPile gs
      /\ playerHand gs' = playerHand gs
      /\ aiHand gs' = aiHand gs
      /\ winner gs' = winner gs).
Proof.
  split.
  - intros H.
    assert (G : showsSuitSelector (gameState app) = false).
    { destruct (showsSuitSelector (gameState app)) eqn:G; [|reflexivity].
      apply showsSuitSelector_true in G. contradiction. }
    assert (E : exec (clickSuit s) app = app)
      by (unfold clickSuit, exec; rewrite G; now destruct app).
    split; [exact E|now rewrite E].
  - intros H gs gs'. subst gs gs'.
    assert (G : showsSuitSelector (gameState app) = true)
      by now apply showsSuitSelector_true.
    unfold clickSuit, exec. rewrite G. repeat split.
Qed.

Lemma clickSuit_only_in_suit_selection_witness :
  gameState (exec (clickSuit clubs) dealt) = gameState dealt
  /\ activeSuit
       (gameState (exec (clickSuit clubs)
                        (exec (clickCard (card R8 hearts)) dealt)))
     = Some clubs.
Proof.
  split.
  - apply (proj1 (clickSuit_only_in_suit_selection clubs dealt)).
    vm_compute. discriminate.
  - apply (proj2 (clickSuit_only_in_suit_selection clubs
                    (exec (clickCard (card R8 hearts)) dealt))).
    reflexivity.
Defined.

(** The intent is the suit transition of a run where the selector is shown,
    and no transition at all elsewhere. *)
Lemma clickSuit_is_step (pack : list Card) (s : Suit) (app : App) :
  exec (clickSuit s) app = app
  \/ (status (gameState app) = suit_selection
      /\ exec (clickSuit s) app = exec (handleSuitSelect s) app
      /\ step pack app (exec (clickSuit s) app)).
Proof.
  destruct (showsSuitSelector (gameState app)) eqn:G.
  - right. pose proof G as H. apply showsSuitSelector_true in H.
    assert (E : exec (clickSuit s) app = exec (handleSuitSelect s) app)
      by (unfold clickSuit, exec; now rewrite G).
    split; [exact H|]. split; [exact E|].
    rewrite E. now apply step_suit.
  - left. unfold clickSuit, exec. rewrite G. now destruct app.
Qed.

(** ** The opponent's suit choice *)

Lemma suitCounts_fold (c : Card) (hand : list Card) (m : SuitCounts) (s : Suit) :
  fold_left
    (fun m x => if otherThan c x then increment (suit x) m else m) hand m s
  = m s + countSuit (filter (otherThan c) hand) s.
Proof.
  revert m. induction hand as [|x hand IH]; intros m; simpl.
  - unfold countSuit. simpl. lia.
  - rewrite IH. destruct (otherThan c x); [|reflexivity].
    unfold countSuit, increment. simpl.
    destruct (Suit_eqb s (suit x)); simpl; lia.
Qed.

(** The tally counts, per suit, the cards left in the hand once the played
    card is taken out. *)
Lemma suitCounts_countSuit (hand : list Card) (c : Card) (s : Suit) :
  suitCounts hand c s = countSuit (filter (otherThan c) hand) s.
Proof. unfold suitCounts. now rewrite suitCounts_fold. Qed.

(** The reduction keeps a suit only against a strictly smaller later one:
    its result has a maximal count, and every suit after it in the
    enumeration has a strictly smaller count. *)
Lemma reduce_last_maximal (k : Suit -> nat) :
  let b := Js.reduce (fun a b => if k b <? k a then a else b)
                     hearts [diamonds; clubs; spades] in
  (forall s, k s <= k b)
  /\ (forall s, suitIndex b < suitIndex s -> k s < k b).
Proof.
  unfold Js.reduce. simpl.
  destruct (Nat.ltb_spec (k diamonds) (k hearts));
    destruct (Nat.ltb_spec (k clubs) (k hearts));
    destruct (Nat.ltb_spec (k clubs) (k diamonds));
    destruct (Nat.ltb_spec (k spades) (k hearts));
    destruct (Nat.ltb_spec (k spades) (k diamonds));
    destruct (Nat.ltb_spec (k spades) (k clubs));
    split; intros s; destruct s; simpl; lia.
Qed.

Lemma aiTimer_eight (app : App) (c : Card) :
  aiToMove (gameState app) = true ->
  cardToPlay (gameState app) = Some c ->
  rank c = R8 ->
  let gs := gameState app in
  let gs' := gameState (exec aiTimer app) in
  activeSuit gs' = Some (bestSuit (aiHand gs) c)
  /\ aiPlayed c gs gs'
  /\ currentTurn gs' = player
  /\ (aiHand gs' = [] -> status gs' = game_over /\ winner gs' = Some ai)
  /\ (aiHand gs' <> [] -> status gs' = status gs /\ winner gs' = winner gs).
Proof.
  intros Hmove Hc H8. unfold exec, aiTimer, aiEffect, aiMove.
  rewrite Hmove, Hc.
  assert (E : Rank_eqb (rank c) R8 = true) by now apply Rank_eqb_eq.
  rewrite E. unfold bind, checkWin, aiPlayed, played.
  destruct (filter (otherThan c) (aiHand (gameState app))) as [|y rest] eqn:F;
    simpl; rewrite ?F; repeat split; congruence.
Qed.

(** C3, as the code has it: when the opponent plays an eight, the new active
    suit has the highest count among the cards left in its hand (the played
    eight excluded), and when several suits share that count the chosen suit
    is the last of them in the order hearts, diamonds, clubs, spades: every
    suit after it has a strictly smaller count. *)
Theorem aiTimer_eight_suit (app : App) (c : Card)
  (Hmove : aiToMove (gameState app) = true)
  (Hcard : cardToPlay (gameState app) = Some c)
  (Height : rank c = R8) :
  let gs := gameState app in
  let gs' := gameState (exec aiTimer app) in
  aiHand gs' = filter (otherThan c) (aiHand gs)
  /\ exists best,
       activeSuit gs' = Some best
       /\ (forall s, countSuit (aiHand gs') s <= countSuit (aiHand gs') best)
       /\ (forall s, suitIndex best < suitIndex s ->
                     countSuit (aiHand gs') s < countSuit (aiHand gs') best).
Proof.
  intros gs gs'.
  destruct (aiTimer_eight app c Hmove Hcard Height)
    as (Hsuit & (_ & Hhand & _) & _).
  simpl handOf in Hhand. fold gs gs' in Hsuit, Hhand.
  split; [exact Hhand|].
  exists (bestSuit (aiHand gs) c). split; [exact Hsuit|].
  rewrite Hhand.
  pose proof (reduce_last_maximal (suitCounts (aiHand gs) c)) as [Hmax Hlast].
  fold (bestSuit (aiHand gs) c) in Hmax, Hlast.
  split; intros s.
  - rewrite <- !suitCounts_countSuit. apply Hmax.
  - rewrite <- !suitCounts_countSuit. apply Hlast.
Qed.

Lemma aiTimer_eight_suit_witness :
  aiHand (gameState (exec aiTimer aiHoldsEight))
  = filter (otherThan (card R8 spades)) (aiHand (gameState aiHoldsEight)).
Proof.
  apply (aiTimer_eight_suit aiHoldsEight (card R8 spades));
    reflexivity.
Defined.

(** C3, as stated, fails: holding one heart and one diamond beside the eight
    it plays, the opponent chooses diamonds, whereas the first suit of
    maximal count is hearts. *)
Lemma aiTimer_eight_suit_not_first :
  let gs' := gameState (exec aiTimer aiHoldsEight) in
  cardToPlay (gameState aiHoldsEight) = Some (card R8 spades)
  /\ countSuit (aiHand gs') hearts = 1
  /\ countSuit (aiHand gs') diamonds = 1
  /\ countSuit (aiHand gs') clubs = 0
  /\ countSuit (aiHand gs') spades = 0
  /\ specBestSuit (countSuit (aiHand gs')) = hearts
  /\ activeSuit gs' = Some diamonds
  /\ activeSuit gs' <> Some (specBestSuit (countSuit (aiHand gs'))).
Proof.
  vm_compute. repeat split; discriminate.
Qed.

(** ** The deal *)

Lemma splice_front {A} (n : nat) (l : list A) :
  Js.splice 0 n l = (firstn n l, skipn n l).
Proof.
  unfold Js.splice. simpl (0 <? 0)%Z. cbv iota.
  rewrite Z.min_l by lia. reflexivity.
Qed.

Lemma splice_one {A} (l1 l2 : list A) (x : A) :
  Js.splice (Z.of_nat (List.length l1)) 1 (l1 ++ x :: l2) = ([x], l1 ++ l2).
Proof.
  unfold Js.splice.
  destruct (Z.ltb_spec (Z.of_nat (List.length l1)) 0) as [H|_]; [lia|].
  rewrite Z.min_l by (rewrite length_app; simpl; lia).
  rewrite Nat2Z.id.
  rewrite skipn_app, Nat.sub_diag, skipn_all. simpl.
  rewrite (firstn_app (List.length l1) l1), Nat.sub_diag, firstn_all.
  simpl. now rewrite app_nil_r.
Qed.

Lemma findIndexFrom_none {A} (p : A -> bool) (l : list A) (i : Z) :
  List.find p l = None -> Js.findIndexFrom p l i = (-1)%Z.
Proof.
  revert i. induction l as [|x l IH]; intros i; simpl; [reflexivity|].
  destruct (p x); [discriminate|]. apply IH.
Qed.

Lemma findIndexFrom_some {A} (p : A -> bool) (l : list A) (i : Z) (c : A) :
  List.find p l = Some c ->
  exists l1 l2,
    l = l1 ++ c :: l2
    /\ Js.findIndexFrom p l i = (i + Z.of_nat (List.length l1))%Z.
Proof.
  revert i. induction l as [|x l IH]; intros i; simpl; [discriminate|].
  destruct (p x) eqn:Px.
  - intros [= <-]. exists [], l. simpl. split; [reflexivity|lia].
  - intros H. destruct (IH (i + 1)%Z H) as (l1 & l2 & -> & E).
    exists (x :: l1), l2. split; [reflexivity|].
    rewrite E. simpl List.length. lia.
Qed.

Lemma find_firstWith {A} (p : A -> bool) (l : list A) (c : A) :
  List.find p l = Some c <-> firstWith p l c.
Proof.
  split.
  - induction l as [|x l IH]; simpl; [discriminate|].
    destruct (p x) eqn:Px.
    + intros [= <-]. exists [], l. simpl. tauto.
    + intros H. destruct (IH H) as (l1 & l2 & -> & Pc & Hl1).
      exists (x :: l1), l2. repeat split; [assumption|].
      intros y [<-|Hy]; [assumption|now apply Hl1].
  - intros (l1 & l2 & -> & Pc & Hl1).
    induction l1 as [|x l1 IH]; simpl.
    + now rewrite Pc.
    + rewrite (Hl1 x) by now left. apply IH.
      intros y Hy. apply Hl1. now right.
Qed.

(** The card that the deal puts on the discard pile, and the deck it
    leaves. *)
Lemma initGame_result (shuffled : list Card) (app : App) :
  let remaining := skipn 8 (skipn 8 shuffled) in
  remaining <> [] ->
  exists c l1 l2,
    remaining = l1 ++ c :: l2
    /\ [c] = match List.find (fun c => negb (isEight c)) remaining with
             | Some c' => [c']
             | None => firstn 1 remaining
             end
    /\ initGame shuffled app
       = Some (mkApp (mkGameState (l1 ++ l2) [c] (firstn 8 shuffled)
                                  (firstn 8 (skipn 8 shuffled))
                                  player playing None (Some (suit c)))
                     "Your turn! Match the suit or rank."
                     (pendingSkips app)).
Proof.
  intros remaining Hne. unfold initGame.
  rewrite !splice_front. fold remaining.
  unfold Js.findIndex.
  change (fun c : Card => negb (Rank_eqb (rank c) R8))
    with (fun c : Card => negb (isEight c)).
  destruct (List.find (fun c => negb (isEight c)) remaining) as [c|] eqn:F.
  - destruct (findIndexFrom_some _ remaining 0 c F) as (l1 & l2 & E & I).
    exists c, l1, l2. rewrite I, E. simpl (0 + _)%Z.
    destruct (Z.eqb_spec (Z.of_nat (List.length l1)) (-1)) as [H|_]; [lia|].
    destruct (Z.eqb_spec (Z.of_nat (List.length l1)) (-1)) as [H|_]; [lia|].
    simpl negb. cbv iota. rewrite splice_one. repeat split.
  - rewrite (findIndexFrom_none _ remaining 0 F). cbv zeta.
    change ((-1 =? -1)%Z) with true. cbv iota.
    change ((0 =? -1)%Z) with false. simpl negb. cbv iota.
    rewrite splice_front.
    destruct remaining as [|c l2] eqn:E; [contradiction|].
    exists c, [], l2. repeat split.
Qed.

(** C2, as the code has it: after eight cards are dealt to each side, the
    starting discard is the first card of the remaining deck whose rank is
    not eight; when every remaining card is an eight, it is the first card
    of the remaining deck (index 0), whatever its rank.  The deal succeeds
    whenever a card remains. *)
Theorem initGame_starting_discard (shuffled : list Card) (app : App)
  (Hrem : skipn 8 (skipn 8 shuffled) <> []) :
  let remaining := skipn 8 (skipn 8 shuffled) in
  exists app',
    initGame shuffled app = Some app'
    /\ playerHand (gameState app') = firstn 8 shuffled
    /\ aiHand (gameState app') = firstn 8 (skipn 8 shuffled)
    /\ discardPile (gameState app')
       = match List.find (fun c => negb (isEight c)) remaining with
         | Some c => [c]
         | None => firstn 1 remaining
         end.
Proof.
  intros remaining.
  destruct (initGame_result shuffled app Hrem) as (c & l1 & l2 & _ & D & I).
  eexists. split; [exact I|]. simpl. repeat split. exact D.
Qed.

Lemma initGame_starting_discard_witness :
  exists app',
    initGame createDeck initialApp = Some app'
    /\ playerHand (gameState app') = firstn 8 createDeck
    /\ aiHand (gameState app') = firstn 8 (skipn 8 createDeck)
    /\ discardPile (gameState app') = [card R4 diamonds].
Proof.
  apply (initGame_starting_discard createDeck initialApp).
  vm_compute. discriminate.
Defined.

(** C2, as stated, fails: when the two cards left after the hands are the
    eight of hearts and the eight of spades, the deal puts the first of
    them, not the last, on the discard pile. *)
Lemma initGame_all_eights_takes_first :
  let remaining := skipn 8 (skipn 8 eightsLeft) in
  remaining = [card R8 hearts; card R8 spades]
  /\ specStartingDiscard remaining = Some (card R8 spades)
  /\ exists app',
       initGame eightsLeft initialApp = Some app'
       /\ discardPile (gameState app') = [card R8 hearts]
       /\ Some (discardPile (gameState app'))
          <> option_map (fun c => [c]) (specStartingDiscard remaining).
Proof.
  split; [reflexivity|]. split; [reflexivity|].
  eexists. split; [vm_compute; reflexivity|].
  split; [reflexivity|]. vm_compute. discriminate.
Qed.

(** ** What each handler does to the state *)

Lemma pop_last {A} (d : list A) (x : A) : Js.pop (d ++ [x]) = (Some x, d).
Proof.
  unfold Js.pop, Js.lastElem. rewrite rev_unit, removelast_last. reflexivity.
Qed.

(** A valid card that is not an eight: the card moves to the discard pile;
    an emptied hand ends the game in the same transition, otherwise the
    turn passes and the card's suit becomes the active suit. *)
Lemma playCard_plain (app : App) (c : Card) (isPlayer : bool) :
  let gs := gameState app in
  let gs' := gameState (exec (playCard gs c isPlayer) app) in
  isValidMove gs c = true ->
  rank c <> R8 ->
  played isPlayer c gs gs'
  /\ (handOf isPlayer gs' = [] ->
      status gs' = game_over /\ winner gs' = Some (sideOf isPlayer)
      /\ currentTurn gs' = currentTurn gs /\ activeSuit gs' = activeSuit gs)
  /\ (handOf isPlayer gs' <> [] ->
      status gs' = status gs /\ winner gs' = winner gs
      /\ currentTurn gs' = (if isPlayer then ai else player)
      /\ activeSuit gs' = Some (suit c)).
Proof.
  intros gs gs' Hv H8. subst gs gs'.
  unfold exec, playCard. rewrite Hv. simpl negb. cbv iota.
  destruct (Rank_eqb (rank c) R8) eqn:E8; [apply Rank_eqb_eq in E8; tauto|].
  unfold bind, checkWin, played.
  destruct (filter (otherThan c) (handOf isPlayer (gameState app)))
    as [|y rest] eqn:F; destruct isPlayer; simpl in *; rewrite ?F;
    repeat split; congruence.
Qed.

(** A valid eight played by the human: the card moves to the discard pile
    and the status becomes [suit_selection]; turn, winner and active suit
    stay. *)
Lemma playCard_eight_player (app : App) (c : Card) :
  let gs := gameState app in
  let gs' := gameState (exec (playCard gs c true) app) in
  rank c = R8 ->
  played true c gs gs'
  /\ status gs' = suit_selection
  /\ winner gs' = winner gs
  /\ currentTurn gs' = currentTurn gs
  /\ activeSuit gs' = activeSuit gs.
Proof.
  intros gs gs' H8. subst gs gs'.
  assert (E : Rank_eqb (rank c) R8 = true) by now apply Rank_eqb_eq.
  unfold exec, playCard, isValidMove. rewrite E. simpl.
  unfold played. simpl. repeat split.
Qed.

Lemma handleDraw_draws (app : App) (d : list Card) (x : Card) :
  let gs := gameState app in
  let gs' := gameState (exec (handleDraw gs) app) in
  disabled gs = false ->
  deck gs = d ++ [x] ->
  drew true x gs gs'
  /\ deck gs' = d
  /\ currentTurn gs' = ai
  /\ status gs' = status gs /\ winner gs' = winner gs
  /\ activeSuit gs' = activeSuit gs.
Proof.
  intros gs gs' Hd Hdeck. subst gs gs'.
  unfold exec, handleDraw. unfold disabled in Hd. rewrite Hd, Hdeck.
  replace (List.length (d ++ [x]) =? 0) with false
    by (now rewrite length_app, Nat.add_comm).
  rewrite pop_last. unfold drew. simpl. rewrite Hdeck. repeat split.
Qed.

Lemma handleDraw_empty (app : App) :
  disabled (gameState app) = false ->
  deck (gameState app) = [] ->
  exec (handleDraw (gameState app)) app
  = mkApp (gameState app) "Deck is empty! Skipping turn."
          (S (pendingSkips app)).
Proof.
  intros Hd Hdeck. unfold exec, handleDraw. unfold disabled in Hd.
  rewrite Hd, Hdeck. reflexivity.
Qed.

Lemma handleDraw_disabled (app : App) :
  disabled (gameState app) = true ->
  exec (handleDraw (gameState app)) app = app.
Proof.
  intros Hd. unfold exec, handleDraw. unfold disabled in Hd.
  rewrite Hd. now destruct app.
Qed.

(** ** The opponent's choice of card *)

Lemma find_filter {A} (p q : A -> bool) (l : list A) :
  List.find p (filter q l) = List.find (fun x => q x && p x) l.
Proof.
  induction l as [|x l IH]; simpl; [reflexivity|].
  destruct (q x); simpl; [now rewrite IH|exact IH].
Qed.

Lemma find_all_false {A} (p : A -> bool) (l : list A) :
  (forall x, In x l -> p x = false) -> List.find p l = None.
Proof.
  induction l as [|x l IH]; intros H; simpl; [reflexivity|].
  rewrite (H x) by now left. apply IH. intros y Hy. apply H. now right.
Qed.

Lemma filter_all_false {A} (p : A -> bool) (l : list A) :
  (forall x, In x l -> p x = false) -> filter p l = [].
Proof.
  induction l as [|x l IH]; intros H; simpl; [reflexivity|].
  rewrite (H x) by now left. apply IH. intros y Hy. apply H. now right.
Qed.

Lemma cardToPlay_playable (gs : GameState) (c : Card) :
  cardToPlay gs = Some c -> In c (aiHand gs) /\ isValidMove gs c = true.
Proof.
  unfold cardToPlay, Js.find.
  destruct (playableCards gs) as [|first rest] eqn:P; [discriminate|].
  destruct (List.find _ (first :: rest)) as [n|] eqn:F; intros [= <-].
  - apply find_some in F. destruct F as [F _]. rewrite <- P in F.
    now apply filter_In in F.
  - assert (I : In first (playableCards gs)) by (rewrite P; now left).
    now apply filter_In in I.
Qed.

Lemma cardToPlay_non_eight (gs : GameState) (c : Card) :
  firstWith (fun x => isValidMove gs x && negb (isEight x)) (aiHand gs) c ->
  cardToPlay gs = Some c.
Proof.
  intros H. apply find_firstWith in H. rewrite <- find_filter in H.
  unfold cardToPlay, Js.find. fold (playableCards gs) in H.
  change (fun c : Card => negb (Rank_eqb (rank c) R8))
    with (fun c : Card => negb (isEight c)).
  rewrite H. destruct (playableCards gs); [discriminate|reflexivity].
Qed.

Lemma cardToPlay_only_eights (gs : GameState) (c : Card) :
  (forall x, In x (aiHand gs) -> isValidMove gs x = true -> rank x = R8) ->
  firstWith (isValidMove gs) (aiHand gs) c ->
  cardToPlay gs = Some c.
Proof.
  intros Hall (l1 & l2 & E & Hc & Hl1).
  unfold cardToPlay, Js.find, playableCards. rewrite find_filter.
  rewrite find_all_false.
  - rewrite E, filter_app, (filter_all_false _ l1 Hl1). simpl.
    now rewrite Hc.
  - intros x Hx. destruct (isValidMove gs x) eqn:V; [|reflexivity].
    simpl. rewrite (Hall x Hx V). reflexivity.
Qed.

Lemma cardToPlay_none (gs : GameState) :
  (forall x, In x (aiHand gs) -> isValidMove gs x = false) ->
  cardToPlay gs = None.
Proof.
  intros H. unfold cardToPlay, playableCards.
  now rewrite (filter_all_false _ _ H).
Qed.

(** The opponent's move when it has a card to play. *)
Lemma aiTimer_plays (app : App) (c : Card) :
  let gs := gameState app in
  let gs' := gameState (exec aiTimer app) in
  aiToMove gs = true ->
  cardToPlay gs = Some c ->
  aiPlayed c gs gs'
  /\ (aiHand gs' = [] -> status gs' = game_over /\ winner gs' = Some ai)
  /\ (aiHand gs' <> [] -> status gs' = status gs /\ winner gs' = winner gs).
Proof.
  intros gs gs' Hmove Hc.
  destruct (Rank_eqb (rank c) R8) eqn:E8.
  - apply Rank_eqb_eq in E8.
    destruct (aiTimer_eight app c Hmove Hc E8) as (_ & Hp & _ & Hw & Hn).
    auto.
  - assert (H8 : rank c <> R8) by (intros H; apply Rank_eqb_eq in H; congruence).
    destruct (cardToPlay_playable _ _ Hc) as [_ Hv].
    destruct (playCard_plain app c false Hv H8) as (Hp & Hw & Hn).
    assert (E : exec aiTimer app = exec (playCard (gameState app) c false) app).
    { unfold exec, aiTimer, aiEffect, aiMove. fold gs.
      now rewrite Hmove, Hc, E8. }
    subst gs'. rewrite E. simpl handOf in Hw, Hn.
    split; [exact Hp|]. split; intros H.
    + destruct (Hw H) as (? & ? & _). auto.
    + destruct (Hn H) as (? & ? & _). auto.
Qed.

(** The opponent's move when it has no card to play. *)
Lemma aiTimer_draws (app : App) (d : list Card) (x : Card) :
  let gs := gameState app in
  let gs' := gameState (exec aiTimer app) in
  aiToMove gs = true ->
  cardToPlay gs = None ->
  deck gs = d ++ [x] ->
  drew false x gs gs'
  /\ deck gs' = d
  /\ currentTurn gs' = player
  /\ status gs' = status gs /\ winner gs' = winner gs
  /\ activeSuit gs' = activeSuit gs.
Proof.
  intros gs gs' Hmove Hc Hdeck. subst gs gs'.
  unfold exec, aiTimer, aiEffect, aiMove. rewrite Hmove, Hc, Hdeck.
  replace (0 <? List.length (d ++ [x])) with true
    by (now rewrite length_app, Nat.add_comm).
  rewrite pop_last. unfold drew. simpl. rewrite Hdeck. repeat split.
Qed.

Lemma aiTimer_skips (app : App) :
  aiToMove (gameState app) = true ->
  cardToPlay (gameState app) = None ->
  deck (gameState app) = [] ->
  gameState (exec aiTimer app) = set_currentTurn player (gameState app).
Proof.
  intros Hmove Hc Hdeck.
  unfold exec, aiTimer, aiEffect, aiMove. rewrite Hmove, Hc, Hdeck.
  reflexivity.
Qed.

(** The policy of the opponent's move, for any state in which the guard of
    the effect holds. *)
Lemma aiMove_policy (app : App)
  (Hturn : currentTurn (gameState app) = ai)
  (Hstatus : status (gameState app) = playing)
  (Hwinner : winner (gameState app) = None) :
  let gs := gameState app in
  let gs' := gameState (exec aiTimer app) in
  (forall c,
     firstWith (fun x => isValidMove gs x && negb (isEight x)) (aiHand gs) c ->
     aiPlayed c gs gs')
  /\ (forall c,
        (forall x, In x (aiHand gs) -> isValidMove gs x = true -> rank x = R8) ->
        firstWith (isValidMove gs) (aiHand gs) c ->
        aiPlayed c gs gs')
  /\ ((forall x, In x (aiHand gs) -> isValidMove gs x = false) ->
      (forall d x, deck gs = d ++ [x] ->
         deck gs' = d
         /\ aiHand gs' = aiHand gs ++ [x]
         /\ List.length (aiHand gs') = S (List.length (aiHand gs))
         /\ playerHand gs' = playerHand gs
         /\ discardPile gs' = discardPile gs
         /\ currentTurn gs' = player)
      /\ (deck gs = [] -> gs' = set_currentTurn player gs)).
Proof.
  intros gs gs'.
  assert (Hmove : aiToMove gs = true) by (apply aiToMove_true; auto).
  split; [|split].
  - intros c Hc. apply cardToPlay_non_eight in Hc.
    now destruct (aiTimer_plays app c Hmove Hc).
  - intros c Hall Hc. apply (cardToPlay_only_eights _ _ Hall) in Hc.
    now destruct (aiTimer_plays app c Hmove Hc).
  - intros Hnone. apply cardToPlay_none in Hnone. split.
    + intros d x Hdeck.
      destruct (aiTimer_draws app d x Hmove Hnone Hdeck)
        as ((_ & Hh & Hp & Hd) & Hk & Ht & _).
      simpl handOf in Hh, Hp. fold gs gs' in Hh, Hp, Hd, Hk, Ht.
      repeat split; try assumption.
      rewrite Hh, length_app, Nat.add_comm. reflexivity.
    + intros Hdeck. now apply aiTimer_skips.
Qed.

(** ** The effect of each transition *)

Lemma samePiles_refl (gs : GameState) : samePiles gs gs.
Proof. repeat split. Qed.

Lemma statusKept_refl (gs : GameState) : statusKept gs gs.
Proof. split; reflexivity. Qed.

Lemma effect_refl (gs : GameState) : effect gs gs.
Proof. apply effect_none; [apply samePiles_refl|apply statusKept_refl]. Qed.

Create HintDb game.

#[local] Hint Resolve samePiles_refl statusKept_refl effect_refl : game.

Lemma clickCard_effect (app : App) (c : Card) :
  In c (playerHand (gameState app)) ->
  effect (gameState app) (gameState (exec (clickCard c) app)).
Proof.
  intros Hin. unfold clickCard, exec.
  destruct (disabled (gameState app)) eqn:D; [simpl; auto with game|].
  apply disabled_false in D. destruct D as [Hturn Hstatus].
  fold (exec (playCard (gameState app) c true) app).
  destruct (isValidMove (gameState app) c) eqn:V.
  2:{ rewrite (playCard_invalid_player _ _ app V). simpl. auto with game. }
  destruct (Rank_eqb (rank c) R8) eqn:E8.
  - apply Rank_eqb_eq in E8.
    destruct (playCard_eight_player app c E8) as (Hp & Hs & Hw & _).
    apply (effect_play _ _ true c); auto.
    now apply outcome_suit_selection.
  - assert (H8 : rank c <> R8)
      by (intros H; apply Rank_eqb_eq in H; congruence).
    destruct (playCard_plain app c true V H8) as (Hp & Hw & Hn).
    apply (effect_play _ _ true c); auto.
    destruct (handOf true (gameState (exec (playCard (gameState app) c true) app)))
      as [|y rest] eqn:F.
    + destruct (Hw eq_refl) as (? & ? & _). now apply outcome_win.
    + assert (N : y :: rest <> []) by discriminate.
      destruct (Hn N) as (? & ? & _).
      apply outcome_continue; [congruence|now split].
Qed.

Lemma clickDrawPile_effect (app : App) :
  effect (gameState app) (gameState (exec clickDrawPile app)).
Proof.
  unfold clickDrawPile, exec.
  destruct (disabled (gameState app)) eqn:D; [simpl; auto with game|].
  fold (exec (handleDraw (gameState app)) app).
  destruct (deck (gameState app)) as [|y rest] eqn:E.
  - rewrite (handleDraw_empty app D E). simpl. auto with game.
  - destruct (@exists_last _ (y :: rest)) as (d & x & Hdeck);
      [discriminate|].
    rewrite <- E in Hdeck.
    destruct (handleDraw_draws app d x D Hdeck)
      as (Hd & _ & _ & Hs & Hw & _).
    apply disabled_false in D. destruct D as [Hturn Hstatus].
    apply (effect_draw _ _ true x); auto. now split.
Qed.

Lemma aiTimer_effect (app : App) :
  effect (gameState app) (gameState (exec aiTimer app)).
Proof.
  destruct (aiToMove (gameState app)) eqn:M.
  2:{ rewrite (aiTimer_not_to_move app M). auto with game. }
  pose proof M as M'. apply aiToMove_true in M'.
  destruct M' as (Hturn & Hstatus & Hwin).
  destruct (cardToPlay (gameState app)) as [c|] eqn:C.
  - destruct (cardToPlay_playable _ _ C) as [Hin Hv].
    destruct (aiTimer_plays app c M C) as (Hp & Hw & Hn).
    apply (effect_play _ _ false c); auto.
    destruct (aiHand (gameState (exec aiTimer app))) as [|y rest] eqn:F.
    + destruct (Hw eq_refl). now apply outcome_win.
    + assert (N : y :: rest <> []) by discriminate.
      destruct (Hn N). apply outcome_continue; [simpl; congruence|now split].
  - destruct (deck (gameState app)) as [|y rest] eqn:E.
    + rewrite (aiTimer_skips app M C E).
      apply effect_none; repeat split.
    + destruct (@exists_last _ (y :: rest)) as (d & x & Hdeck);
        [discriminate|].
      rewrite <- E in Hdeck.
      destruct (aiTimer_draws app d x M C Hdeck)
        as (Hd & _ & _ & Hs & Hw & _).
      apply (effect_draw _ _ false x); auto. now split.
Qed.

Lemma skipTimer_effect (app : App) :
  effect (gameState app) (gameState (exec skipTimer app)).
Proof.
  unfold skipTimer, exec. destruct (pendingSkips app); simpl.
  - auto with game.
  - apply effect_none; repeat split.
Qed.

Lemma handleSuitSelect_effect (s : Suit) (app : App) :
  status (gameState app) = suit_selection ->
  effect (gameState app) (gameState (exec (handleSuitSelect s) app)).
Proof.
  intros H. apply effect_suit; [repeat split|exact H|reflexivity|reflexivity].
Qed.

(** Every transition is a fresh deal or has one of the four effects. *)
Lemma step_effect (pack : list Card) (app app' : App) :
  step pack app app' ->
  (exists shuffled,
      Permutation shuffled pack /\ initGame shuffled app = Some app')
  \/ effect (gameState app) (gameState app').
Proof.
  intros H. destruct H.
  - left. now exists shuffled.
  - right. now apply clickCard_effect.
  - right. apply clickDrawPile_effect.
  - right. now apply handleSuitSelect_effect.
  - right. apply aiTimer_effect.
  - right. apply skipTimer_effect.
Qed.

(** ** The partition of the pack *)

Lemma filter_all_true {A} (p : A -> bool) (l : list A) :
  (forall x, In x l -> p x = true) -> filter p l = l.
Proof.
  induction l as [|x l IH]; intros H; simpl; [reflexivity|].
  rewrite (H x) by now left. f_equal. apply IH.
  intros y Hy. apply H. now right.
Qed.

Lemma otherThan_false (c x : Card) : otherThan c x = false <-> id x = id c.
Proof.
  unfold otherThan. rewrite negb_false_iff. apply String.eqb_eq.
Qed.

Lemma otherThan_true (c x : Card) : otherThan c x = true <-> id x <> id c.
Proof.
  unfold otherThan. rewrite negb_true_iff. apply String.eqb_neq.
Qed.

(** With distinct identifiers, filtering by identifier removes exactly the
    played card. *)
Lemma filter_otherThan_perm (c : Card) (l : list Card) :
  NoDup (map id l) -> In c l ->
  Permutation (c :: filter (otherThan c) l) l.
Proof.
  induction l as [|x l IH]; intros Hnd Hin; [contradiction|].
  simpl in Hnd. apply NoDup_cons_iff in Hnd. destruct Hnd as [Hx Hnd].
  simpl. destruct Hin as [->|Hin].
  - replace (otherThan c c) with false
      by (symmetry; now apply otherThan_false).
    rewrite filter_all_true; [reflexivity|].
    intros y Hy. apply otherThan_true. intros E. apply Hx.
    rewrite <- E. now apply in_map.
  - replace (otherThan c x) with true.
    + rewrite perm_swap. apply perm_skip. now apply IH.
    + symmetry. apply otherThan_true. intros E. apply Hx.
      rewrite E. now apply in_map.
Qed.

Lemma NoDup_app_l {A} (l1 l2 : list A) : NoDup (l1 ++ l2) -> NoDup l1.
Proof.
  induction l1 as [|x l1 IH]; simpl; intros H; [constructor|].
  apply NoDup_cons_iff in H. destruct H as [Hx H].
  constructor; [|now apply IH].
  intros Hin. apply Hx. apply in_or_app. now left.
Qed.

Lemma NoDup_app_r {A} (l1 l2 : list A) : NoDup (l1 ++ l2) -> NoDup l2.
Proof.
  induction l1 as [|x l1 IH]; simpl; intros H; [exact H|].
  apply NoDup_cons_iff in H. now apply IH.
Qed.

Lemma hand_distinct (isPlayer : bool) (gs : GameState) :
  NoDup (map id (allCards gs)) -> NoDup (map id (handOf isPlayer gs)).
Proof.
  unfold allCards. rewrite !map_app. intros H.
  apply NoDup_app_r in H. apply NoDup_app_r in H.
  destruct isPlayer; simpl.
  - now apply NoDup_app_l in H.
  - now apply NoDup_app_r in H.
Qed.

Lemma played_partition (isPlayer : bool) (c : Card) (gs gs' : GameState) :
  NoDup (map id (allCards gs)) ->
  In c (handOf isPlayer gs) ->
  played isPlayer c gs gs' ->
  Permutation (allCards gs') (allCards gs).
Proof.
  intros Hnd Hin (Hd & Hh & Ho & Hk).
  pose proof (filter_otherThan_perm c _ (hand_distinct isPlayer gs Hnd) Hin)
    as P.
  unfold allCards. rewrite Hk, Hd.
  apply Permutation_app_head. rewrite <- app_assoc.
  apply Permutation_app_head.
  destruct isPlayer; simpl in *; rewrite Hh, Ho.
  - now apply (Permutation_app_tail (aiHand gs) P).
  - rewrite Permutation_middle. now apply Permutation_app_head.
Qed.

Lemma drew_partition (isPlayer : bool) (x : Card) (gs gs' : GameState) :
  drew isPlayer x gs gs' ->
  Permutation (allCards gs') (allCards gs).
Proof.
  intros (Hk & Hh & Ho & Hd).
  unfold allCards. rewrite Hk, Hd, <- !app_assoc.
  apply Permutation_app_head. symmetry. simpl.
  destruct isPlayer; simpl in *; rewrite Hh, Ho.
  - rewrite <- app_assoc. simpl.
    now rewrite <- !Permutation_middle.
  - rewrite <- (Permutation_cons_append (aiHand gs) x).
    now rewrite <- !Permutation_middle.
Qed.

Lemma effect_partition (gs gs' : GameState) :
  NoDup (map id (allCards gs)) ->
  effect gs gs' ->
  Permutation (allCards gs') (allCards gs).
Proof.
  intros Hnd [ (Hk & Hd & Hp & Ha) _
             | isPlayer c _ _ Hin _ Hp _
             | isPlayer x _ _ Hd _
             | (Hk & Hd & Hp & Ha) _ _ _ ].
  - unfold allCards. now rewrite Hk, Hd, Hp, Ha.
  - now apply (played_partition isPlayer c).
  - now apply (drew_partition isPlayer x).
  - unfold allCards. now rewrite Hk, Hd, Hp, Ha.
Qed.

Lemma initGame_none (shuffled : list Card) (app : App) :
  skipn 8 (skipn 8 shuffled) = [] -> initGame shuffled app = None.
Proof.
  intros H. unfold initGame. rewrite !splice_front, H. reflexivity.
Qed.

Lemma initGame_some (shuffled : list Card) (app app' : App) :
  initGame shuffled app = Some app' ->
  Permutation (allCards (gameState app')) shuffled
  /\ status (gameState app') = playing
  /\ winner (gameState app') = None
  /\ currentTurn (gameState app') = player.
Proof.
  intros H.
  destruct (skipn 8 (skipn 8 shuffled)) as [|y rest] eqn:E.
  { rewrite (initGame_none shuffled app E) in H. discriminate. }
  assert (N : skipn 8 (skipn 8 shuffled) <> []) by (rewrite E; discriminate).
  destruct (initGame_result shuffled app N) as (c & l1 & l2 & R & _ & I).
  rewrite I in H. injection H as <-. simpl. repeat split.
  unfold allCards. simpl.
  apply Permutation_trans
    with (firstn 8 shuffled ++ firstn 8 (skipn 8 shuffled) ++ l1 ++ c :: l2).
  - rewrite <- !Permutation_middle.
    rewrite (Permutation_app_comm (l1 ++ l2)).
    now rewrite <- app_assoc.
  - rewrite <- R, !firstn_skipn. reflexivity.
Qed.

Lemma partition_distinct (pack : list Card) (gs : GameState) :
  NoDup (map id pack) -> partitionOf pack gs ->
  NoDup (map id (allCards gs)).
Proof.
  intros Hnd P. apply (Permutation_NoDup (l := map id pack)); [|exact Hnd].
  symmetry. now apply Permutation_map.
Qed.

Lemma step_partition (pack : list Card) (app app' : App) :
  NoDup (map id pack) ->
  partitionOf pack (gameState app) ->
  step pack app app' ->
  partitionOf pack (gameState app').
Proof.
  intros Hnd P H. unfold partitionOf in *.
  destruct (step_effect pack app app' H) as [(shuffled & Hs & I)|E].
  - destruct (initGame_some shuffled app app' I) as [Q _].
    now rewrite Q.
  - rewrite (effect_partition _ _ (partition_distinct pack _ Hnd P) E).
    exact P.
Qed.

Lemma reachable_partitionOf (pack : list Card) (app : App) :
  NoDup (map id pack) ->
  reachable pack app ->
  partitionOf pack (gameState app).
Proof.
  intros Hnd H. induction H as [shuffled app' Hs I|app app' _ IH Hstep].
  - destruct (initGame_some shuffled initialApp app' I) as [Q _].
    unfold partitionOf. now rewrite Q.
  - now apply (step_partition pack app app').
Qed.

Lemma distinctb_NoDup (l : list string) : distinctb l = true -> NoDup l.
Proof.
  induction l as [|x l IH]; simpl; intros H; [constructor|].
  apply andb_true_iff in H. destruct H as [Hx H].
  constructor; [|now apply IH].
  intros Hin. apply negb_true_iff in Hx.
  assert (E : existsb (String.eqb x) l = true).
  { apply existsb_exists. exists x. split; [exact Hin|apply String.eqb_refl]. }
  congruence.
Qed.

(** C6: in every state reachable after initialization from a pack of 52
    cards with pairwise distinct identifiers, the deck, the discard pile and
    the two hands together hold exactly the cards of the pack: 52 cards with
    pairwise distinct identifiers; and every transition (a play, a draw, a
    suit selection, a move of the opponent, a win, a fresh deal) leaves
    this collection the same up to order. *)
Theorem reachable_partition (pack : list Card) (app : App)
  (Hdistinct : NoDup (map id pack))
  (Hsize : List.length pack = 52)
  (Hreach : reachable pack app) :
  Permutation (allCards (gameState app)) pack
  /\ List.length (allCards (gameState app)) = 52
  /\ NoDup (map id (allCards (gameState app)))
  /\ forall app', step pack app app' ->
       Permutation (allCards (gameState app')) (allCards (gameState app)).
Proof.
  pose proof (reachable_partitionOf pack app Hdistinct Hreach) as P.
  split; [exact P|]. split; [|split].
  - rewrite <- Hsize. now apply Permutation_length.
  - now apply (partition_distinct pack).
  - intros app' Hstep.
    pose proof (step_partition pack app app' Hdistinct P Hstep) as P'.
    unfold partitionOf in *. now rewrite P, P'.
Qed.

Lemma reachable_partition_witness :
  Permutation (allCards (gameState afterFirstPlay)) createDeck.
Proof.
  apply (reachable_partition createDeck afterFirstPlay).
  - apply distinctb_NoDup. vm_compute. reflexivity.
  - reflexivity.
  - apply (reach_step createDeck dealt).
    + apply (reach_init createDeck createDeck);
        [apply Permutation_refl|reflexivity].
    + apply step_card. simpl. tauto.
Defined.

(** ** Winner and status *)

Lemma effect_winner (gs gs' : GameState) :
  winnerIffOver gs -> effect gs gs' -> winnerIffOver gs'.
Proof.
  intros [Hover Hnot] E. unfold winnerIffOver.
  destruct E as [ _ [Hs Hw]
                | isPlayer c _ Hst _ _ _ O
                | isPlayer x _ _ _ [Hs Hw]
                | _ Hst Hs Hw ].
  - rewrite Hs, Hw. now split.
  - destruct O as [_ Hs Hw | _ _ Hs Hw | _ [Hs Hw]].
    + rewrite Hs, Hw. split; [eauto|congruence].
    + rewrite Hs, Hw. split; [discriminate|].
      intros _. apply Hnot. congruence.
    + rewrite Hs, Hw. now split.
  - rewrite Hs, Hw. now split.
  - rewrite Hs, Hw. split; [discriminate|].
    intros _. apply Hnot. congruence.
Qed.

Lemma reachable_winnerIffOver (pack : list Card) (app : App) :
  reachable pack app -> winnerIffOver (gameState app).
Proof.
  intros H. induction H as [shuffled app' Hs I|app app' _ IH Hstep].
  - destruct (initGame_some shuffled initialApp app' I) as (_ & Hst & Hw & _).
    unfold winnerIffOver. rewrite Hst, Hw. split; [discriminate|reflexivity].
  - destruct (step_effect pack app app' Hstep) as [(shuffled & Hs & I)|E].
    + destruct (initGame_some shuffled app app' I) as (_ & Hst & Hw & _).
      unfold winnerIffOver. rewrite Hst, Hw.
      split; [discriminate|reflexivity].
    + now apply (effect_winner (gameState app)).
Qed.

(** C10: in every reachable state, the status [game_over] comes with a
    winner, and a winner is set only in the status [game_over]; a
    transition that sets the winner is a play of the side to move that
    empties its hand, it names that side, and it sets the status to
    [game_over] in the same transition. *)
Theorem reachable_winner_game_over (pack : list Card) (app : App)
  (Hreach : reachable pack app) :
  (status (gameState app) = game_over ->
   winner (gameState app) = Some player \/ winner (gameState app) = Some ai)
  /\ (status (gameState app) <> game_over -> winner (gameState app) = None)
  /\ forall app' w,
       step pack app app' ->
       winner (gameState app) = None ->
       winner (gameState app') = Some w ->
       status (gameState app') = game_over
       /\ currentTurn (gameState app) = w
       /\ exists isPlayer,
            w = sideOf isPlayer /\ handOf isPlayer (gameState app') = [].
Proof.
  destruct (reachable_winnerIffOver pack app Hreach) as [Hover Hnot].
  split; [|split].
  - intros H. destruct (Hover H) as [[|] Hw]; auto.
  - exact Hnot.
  - intros app' w Hstep Hnone Hset.
    destruct (step_effect pack app app' Hstep) as [(shuffled & Hs & I)|E].
    { destruct (initGame_some shuffled app app' I) as (_ & _ & Hw & _).
      congruence. }
    destruct E as [ _ [Hs Hw]
                  | isPlayer c Hturn _ _ _ _ O
                  | isPlayer x _ _ _ [Hs Hw]
                  | _ _ _ Hw ]; try congruence.
    destruct O as [Hh Hs Hw | _ _ _ Hw | _ [_ Hw]]; try congruence.
    assert (w = sideOf isPlayer) by congruence. subst w.
    split; [exact Hs|]. split; [exact Hturn|]. now exists isPlayer.
Qed.

Lemma reachable_winner_game_over_witness :
  winner (gameState dealt) = None.
Proof.
  apply (reachable_winner_game_over createDeck dealt).
  - apply (reach_init createDeck createDeck);
      [apply Permutation_refl|reflexivity].
  - vm_compute. discriminate.
Defined.

(** ** Win detection *)

(** The human's play of a last card that is not an eight ends the game. *)
Lemma clickCard_last_card_wins (app : App) (c : Card) :
  let gs := gameState app in
  let gs' := gameState (exec (clickCard c) app) in
  disabled gs = false ->
  isValidMove gs c = true ->
  rank c <> R8 ->
  playerHand gs' = [] ->
  status gs' = game_over /\ winner gs' = Some player.
Proof.
  intros gs gs' D V H8 Hempty. subst gs gs'.
  unfold clickCard, exec in *. rewrite D in *.
  fold (exec (playCard (gameState app) c true) app) in *.
  destruct (playCard_plain app c true V H8) as (_ & Hw & _).
  destruct (Hw Hempty) as (? & ? & _). now split.
Qed.

(** The opponent's play of its last card, an eight or not, ends the game. *)
Lemma aiTimer_last_card_wins (app : App) (c : Card) :
  let gs := gameState app in
  let gs' := gameState (exec aiTimer app) in
  aiToMove gs = true ->
  cardToPlay gs = Some c ->
  aiHand gs' = [] ->
  status gs' = game_over /\ winner gs' = Some ai.
Proof.
  intros gs gs' M C Hempty.
  destruct (aiTimer_plays app c M C) as (_ & Hw & _). now apply Hw.
Qed.

(** Once the game is over, a click on a card, a click on the draw pile and
    the opponent's timer change nothing. *)
Lemma game_over_is_final (app : App) (c : Card) :
  status (gameState app) = game_over ->
  exec (clickCard c) app = app
  /\ exec clickDrawPile app = app
  /\ exec aiTimer app = app.
Proof.
  intros H.
  assert (D : disabled (gameState app) = true)
    by (apply disabled_true; right; congruence).
  assert (M : aiToMove (gameState app) = false).
  { destruct (aiToMove (gameState app)) eqn:M; [|reflexivity].
    apply aiToMove_true in M. destruct M as (_ & M & _). congruence. }
  repeat split.
  - unfold clickCard, exec. now rewrite D.
  - unfold clickDrawPile, exec. now rewrite D.
  - now apply aiTimer_not_to_move.
Qed.

Lemma Card_eqb_eq (a b : Card) : Card_eqb a b = true <-> a = b.
Proof.
  unfold Card_eqb.
  rewrite !andb_true_iff, String.eqb_eq, Suit_eqb_eq, Rank_eqb_eq.
  destruct a, b; simpl. split.
  - intros [[-> ->] ->]. reflexivity.
  - intros [= -> -> ->]. auto.
Qed.

Lemma wellFormedb_partition (gs : GameState) :
  wellFormedb gs = true -> partitionOf createDeck gs.
Proof.
  unfold wellFormedb, partitionOf. rewrite !andb_true_iff.
  intros [[Hlen Hd] Hin]. apply Nat.eqb_eq in Hlen.
  apply NoDup_Permutation_bis.
  - apply (NoDup_map_inv id). now apply distinctb_NoDup.
  - rewrite Hlen. reflexivity.
  - intros c Hc. rewrite forallb_forall in Hin.
    specialize (Hin c Hc). apply existsb_exists in Hin.
    destruct Hin as (c' & Hc' & E). apply Card_eqb_eq in E. now subst c'.
Qed.

(** The state [lastCardEight] is a partition of the pack. *)
Lemma lastCardEight_partition :
  partitionOf createDeck (gameState lastCardEight).
Proof. apply wellFormedb_partition. vm_compute. reflexivity. Qed.

(** C1, at the failing input: the human, to move in [playing] status, holds
    one card, the eight of hearts.  The click is accepted and empties the
    hand, yet the status becomes [suit_selection] and no winner is set; the
    suit selection that follows returns to [playing] with the turn passed to
    the opponent, whose timer is armed, still without a winner. *)
Theorem clickCard_last_card_eight_no_win :
  let gs := gameState lastCardEight in
  let app' := exec (clickCard (card R8 hearts)) lastCardEight in
  let gs' := gameState app' in
  (currentTurn gs = player /\ status gs = playing
   /\ playerHand gs = [card R8 hearts]
   /\ isValidMove gs (card R8 hearts) = true)
  /\ (playerHand gs' = []
      /\ topDiscard gs' = Some (card R8 hearts)
      /\ status gs' = suit_selection
      /\ winner gs' = None)
  /\ forall s,
       let gs'' := gameState (exec (handleSuitSelect s) app') in
       playerHand gs'' = []
       /\ status gs'' = playing
       /\ winner gs'' = None
       /\ currentTurn gs'' = ai
       /\ aiToMove gs'' = true.
Proof.
  split; [|split].
  - vm_compute. repeat split.
  - vm_compute. repeat split.
  - intros s. destruct s; vm_compute; repeat split.
Qed.

(** ** The opponent's policy on reachable states *)

(** C9: on the opponent's turn in [playing] status, the opponent plays the
    first playable card of its hand that is not an eight; when every
    playable card is an eight, it plays the first playable card; when no
    card is playable, it takes one card (the last) of a non-empty deck into
    its hand, which grows by one, and the turn passes to the player; on an
    empty deck only the turn passes. *)
Theorem aiTimer_policy (pack : list Card) (app : App)
  (Hreach : reachable pack app)
  (Hturn : currentTurn (gameState app) = ai)
  (Hstatus : status (gameState app) = playing) :
  let gs := gameState app in
  let gs' := gameState (exec aiTimer app) in
  (forall c,
     firstWith (fun x => isValidMove gs x && negb (isEight x)) (aiHand gs) c ->
     aiPlayed c gs gs')
  /\ (forall c,
        (forall x, In x (aiHand gs) -> isValidMove gs x = true -> rank x = R8) ->
        firstWith (isValidMove gs) (aiHand gs) c ->
        aiPlayed c gs gs')
  /\ ((forall x, In x (aiHand gs) -> isValidMove gs x = false) ->
      (forall d x, deck gs = d ++ [x] ->
         deck gs' = d
         /\ aiHand gs' = aiHand gs ++ [x]
         /\ List.length (aiHand gs') = S (List.length (aiHand gs))
         /\ playerHand gs' = playerHand gs
         /\ discardPile gs' = discardPile gs
         /\ currentTurn gs' = player)
      /\ (deck gs = [] -> gs' = set_currentTurn player gs)).
Proof.
  destruct (reachable_winnerIffOver pack app Hreach) as [_ Hnot].
  apply (aiMove_policy app Hturn Hstatus).
  apply Hnot. congruence.
Qed.

Lemma aiTimer_policy_witness :
  aiPlayed (card R9 hearts) (gameState afterFirstPlay)
           (gameState (exec aiTimer afterFirstPlay)).
Proof.
  refine (proj1 (aiTimer_policy createDeck afterFirstPlay _ eq_refl eq_refl)
                (card R9 hearts) _).
  - apply (reach_step createDeck dealt).
    + apply (reach_init createDeck createDeck);
        [apply Permutation_refl|reflexivity].
    + apply step_card. simpl. tauto.
  - exists [], (skipn 1 (aiHand (gameState afterFirstPlay))).
    split; [reflexivity|]. split; [reflexivity|]. intros y [].
Defined.

(** * Further properties of the handlers *)

(** ** The deal *)

Lemma remaining_length (shuffled : list Card) :
  List.length (skipn 8 (skipn 8 shuffled)) = List.length shuffled - 16.
Proof. rewrite !length_skipn. lia. Qed.

Lemma remaining_nonempty (shuffled : list Card) :
  17 <= List.length shuffled -> skipn 8 (skipn 8 shuffled) <> [].
Proof.
  intros H E. apply (f_equal (@List.length Card)) in E.
  rewrite remaining_length in E. simpl in E. lia.
Qed.

(** X1: on an array of at least 17 cards the deal succeeds: the player gets
    the first eight cards, the opponent the next eight, one card of the rest
    is the discard pile and its suit is the active suit, every other card
    stays in the deck (the four piles are the array up to order), and the
    game is in [playing] status with the player to move and no winner. *)
Theorem initGame_deals (shuffled : list Card) (app : App)
  (Hlen : 17 <= List.length shuffled) :
  exists app' c,
    initGame shuffled app = Some app'
    /\ playerHand (gameState app') = firstn 8 shuffled
    /\ aiHand (gameState app') = firstn 8 (skipn 8 shuffled)
    /\ List.length (playerHand (gameState app')) = 8
    /\ List.length (aiHand (gameState app')) = 8
    /\ discardPile (gameState app') = [c]
    /\ In c (skipn 8 (skipn 8 shuffled))
    /\ List.length (deck (gameState app')) = List.length shuffled - 17
    /\ activeSuit (gameState app') = Some (suit c)
    /\ currentTurn (gameState app') = player
    /\ status (gameState app') = playing
    /\ winner (gameState app') = None
    /\ message app' = "Your turn! Match the suit or rank."%string
    /\ Permutation (allCards (gameState app')) shuffled.
Proof.
  destruct (initGame_result shuffled app (remaining_nonempty shuffled Hlen))
    as (c & l1 & l2 & R & _ & I).
  destruct (initGame_some shuffled app _ I) as [P _].
  eexists. exists c. split; [exact I|].
  cbn [gameState message playerHand aiHand discardPile deck activeSuit
       currentTurn status winner].
  pose proof (remaining_length shuffled) as L. rewrite R in L.
  rewrite length_app in L. simpl in L.
  split; [reflexivity|]. split; [reflexivity|].
  split; [rewrite length_firstn; lia|].
  split; [rewrite length_firstn, length_skipn; lia|].
  split; [reflexivity|].
  split; [rewrite R; apply in_or_app; right; now left|].
  split; [rewrite length_app; lia|].
  repeat split. exact P.
Qed.

Lemma initGame_deals_witness :
  exists app' c,
    initGame createDeck initialApp = Some app'
    /\ playerHand (gameState app') = firstn 8 createDeck
    /\ aiHand (gameState app') = firstn 8 (skipn 8 createDeck)
    /\ List.length (playerHand (gameState app')) = 8
    /\ List.length (aiHand (gameState app')) = 8
    /\ discardPile (gameState app') = [c]
    /\ In c (skipn 8 (skipn 8 createDeck))
    /\ List.length (deck (gameState app')) = 35
    /\ activeSuit (gameState app') = Some (suit c)
    /\ currentTurn (gameState app') = player
    /\ status (gameState app') = playing
    /\ winner (gameState app') = None
    /\ message app' = "Your turn! Match the suit or rank."%string
    /\ Permutation (allCards (gameState app')) createDeck.
Proof.
  apply (initGame_deals createDeck initialApp). vm_compute. lia.
Defined.

(** X2: the deal fails, leaving the component state as it was, exactly when
    the array has 16 cards or fewer, that is when no card is left for the
    discard pile once both hands are dealt. *)
Theorem initGame_fails_iff (shuffled : list Card) (app : App) :
  initGame shuffled app = None <-> List.length shuffled <= 16.
Proof.
  split.
  - intros H. destruct (le_lt_dec (List.length shuffled) 16) as [L|L];
      [exact L|].
    destruct (initGame_result shuffled app (remaining_nonempty shuffled L))
      as (c & l1 & l2 & _ & _ & I).
    congruence.
  - intros H. apply initGame_none.
    apply skipn_all2. rewrite length_skipn. lia.
Qed.

Lemma initGame_fails_iff_witness :
  initGame (firstn 16 createDeck) dealt = None.
Proof.
  apply (proj2 (initGame_fails_iff (firstn 16 createDeck) dealt)).
  vm_compute. lia.
Defined.

Lemma filter_skipn_le {A} (p : A -> bool) (n : nat) (l : list A) :
  List.length (filter p (skipn n l)) <= List.length (filter p l).
Proof.
  rewrite <- (firstn_skipn n l) at 2. rewrite filter_app, length_app. lia.
Qed.

(** X3: when the array holds fewer eights than cards beyond the sixteenth,
    as every shuffle of a standard pack does, the starting discard is not an
    eight. *)
Theorem initGame_starts_on_non_eight (shuffled : list Card) (app : App)
  (Heights : List.length (filter isEight shuffled) + 16
             < List.length shuffled) :
  exists app' c,
    initGame shuffled app = Some app'
    /\ discardPile (gameState app') = [c]
    /\ rank c <> R8
    /\ activeSuit (gameState app') = Some (suit c).
Proof.
  assert (N : skipn 8 (skipn 8 shuffled) <> [])
    by (apply remaining_nonempty; lia).
  destruct (initGame_result shuffled app N) as (c & l1 & l2 & R & D & I).
  eexists. exists c. split; [exact I|]. simpl.
  split; [reflexivity|]. split; [|reflexivity].
  destruct (List.find (fun c => negb (isEight c)) (skipn 8 (skipn 8 shuffled)))
    as [c'|] eqn:F.
  - injection D as <-. apply find_some in F. destruct F as [_ F].
    intros E. unfold isEight in F. apply negb_true_iff in F.
    rewrite E in F. discriminate.
  - exfalso.
    assert (All : filter isEight (skipn 8 (skipn 8 shuffled))
                  = skipn 8 (skipn 8 shuffled)).
    { apply filter_all_true. intros x Hx.
      pose proof (find_none _ _ F x Hx) as Hf. simpl in Hf.
      now apply negb_false_iff in Hf. }
    pose proof (filter_skipn_le isEight 8 (skipn 8 shuffled)) as L1.
    pose proof (filter_skipn_le isEight 8 shuffled) as L2.
    rewrite All, remaining_length in L1. lia.
Qed.

Lemma initGame_starts_on_non_eight_witness :
  exists app' c,
    initGame createDeck initialApp = Some app'
    /\ discardPile (gameState app') = [c]
    /\ rank c <> R8
    /\ activeSuit (gameState app') = Some (suit c).
Proof.
  apply (initGame_starts_on_non_eight createDeck initialApp).
  vm_compute. lia.
Defined.

Lemma initGame_two_states (shuffled : list Card) (app1 app2 : App) :
  match initGame shuffled app1, initGame shuffled app2 with
  | Some a1, Some a2 =>
      gameState a1 = gameState a2
      /\ message a1 = message a2
      /\ pendingSkips a1 = pendingSkips app1
      /\ pendingSkips a2 = pendingSkips app2
  | None, None => True
  | _, _ => False
  end.
Proof.
  unfold initGame.
  destruct (Js.splice 0 8 shuffled) as [ph fd].
  destruct (Js.splice 0 8 fd) as [ah fd2]. cbv zeta.
  destruct (if negb _ then _ else _) as [dp fd3].
  destruct dp as [|first dp]; simpl; auto.
Qed.

(** X4: a fresh deal discards the game in progress: the new game state and
    message depend on the shuffled array only; the pending timeouts of
    [handleDraw] are the one thing carried over. *)
Theorem initGame_discards_state (shuffled : list Card) (app1 app2 app1' : App)
  (Hdeal : initGame shuffled app1 = Some app1') :
  exists app2',
    initGame shuffled app2 = Some app2'
    /\ gameState app2' = gameState app1'
    /\ message app2' = message app1'
    /\ pendingSkips app1' = pendingSkips app1
    /\ pendingSkips app2' = pendingSkips app2.
Proof.
  pose proof (initGame_two_states shuffled app1 app2) as H.
  rewrite Hdeal in H.
  destruct (initGame shuffled app2) as [a2|]; [|contradiction].
  exists a2. destruct H as (H1 & H2 & H3 & H4). auto.
Qed.

Lemma initGame_discards_state_witness :
  exists app2',
    initGame createDeck skipPending = Some app2'
    /\ gameState app2' = gameState dealt
    /\ message app2' = message dealt
    /\ pendingSkips dealt = pendingSkips initialApp
    /\ pendingSkips app2' = pendingSkips skipPending.
Proof.
  apply (initGame_discards_state createDeck initialApp skipPending dealt).
  reflexivity.
Defined.

(** X5: a timeout of [handleDraw] that is pending when the game is
    restarted is not cancelled: the new game starts with the player to
    move, and when the timeout fires the turn passes to the opponent, whose
    timer is then armed, before the player has acted. *)
Theorem restart_keeps_pending_skip (shuffled : list Card) (app app' : App)
  (Hpending : 0 < pendingSkips app)
  (Hdeal : initGame shuffled app = Some app') :
  currentTurn (gameState app') = player
  /\ pendingSkips app' = pendingSkips app
  /\ gameState (exec skipTimer app') = set_currentTurn ai (gameState app')
  /\ aiToMove (gameState (exec skipTimer app')) = true.
Proof.
  destruct (initGame_some shuffled app app' Hdeal) as (_ & Hs & Hw & Ht).
  assert (Hp : pendingSkips app' = pendingSkips app).
  { pose proof (initGame_two_states shuffled app app) as H.
    rewrite Hdeal in H. tauto. }
  split; [exact Ht|]. split; [exact Hp|].
  unfold exec, skipTimer. rewrite Hp.
  destruct (pendingSkips app) as [|n]; [lia|]. simpl.
  split; [reflexivity|].
  unfold aiToMove. simpl. rewrite Hs, Hw. reflexivity.
Qed.

Lemma restart_keeps_pending_skip_witness :
  aiToMove
    (gameState
       (exec skipTimer
             (mkApp (gameState dealt) (message dealt) 1))) = true.
Proof.
  apply (restart_keeps_pending_skip createDeck skipPending
           (mkApp (gameState dealt) (message dealt) 1)).
  - vm_compute. lia.
  - reflexivity.
Defined.

(** ** Drawing *)

Lemma clickDrawPile_draws_eq (app : App) (d : list Card) (x : Card) :
  disabled (gameState app) = false ->
  deck (gameState app) = d ++ [x] ->
  exec clickDrawPile app
  = mkApp (mkGameState d (discardPile (gameState app))
                       (playerHand (gameState app) ++ [x])
                       (aiHand (gameState app))
                       ai playing (winner (gameState app))
                       (activeSuit (gameState app)))
          "You drew a card." (pendingSkips app).
Proof.
  intros D Hdeck.
  pose proof D as D'. apply disabled_false in D'. destruct D' as [_ Hstatus].
  unfold clickDrawPile, exec. rewrite D.
  unfold handleDraw. unfold disabled in D. rewrite D, Hdeck.
  replace (List.length (d ++ [x]) =? 0) with false
    by (now rewrite length_app, Nat.add_comm).
  rewrite pop_last. simpl. unfold set_currentTurn, set_playerHand, set_deck.
  simpl. now rewrite Hstatus.
Qed.

(** X6: on the player's turn in [playing] status with a card in the deck, a
    click on the draw pile moves the last card of the deck to the end of the
    player's hand and passes the turn to the opponent; the discard pile, the
    opponent's hand, the status, the winner and the active suit stay. *)
Theorem clickDrawPile_draws (app : App) (d : list Card) (x : Card)
  (Hturn : currentTurn (gameState app) = player)
  (Hstatus : status (gameState app) = playing)
  (Hdeck : deck (gameState app) = d ++ [x]) :
  exec clickDrawPile app
  = mkApp (mkGameState d (discardPile (gameState app))
                       (playerHand (gameState app) ++ [x])
                       (aiHand (gameState app))
                       ai playing (winner (gameState app))
                       (activeSuit (gameState app)))
          "You drew a card." (pendingSkips app).
Proof.
  apply clickDrawPile_draws_eq; [|exact Hdeck].
  apply disabled_false. now split.
Qed.

Lemma clickDrawPile_draws_witness :
  playerHand (gameState (exec clickDrawPile dealt))
  = playerHand (gameState dealt) ++ [card RK spades].
Proof.
  rewrite (clickDrawPile_draws dealt
             (removelast (deck (gameState dealt))) (card RK spades)
             eq_refl eq_refl eq_refl).
  reflexivity.
Defined.

(** X7: on the player's turn with an empty deck, a click on the draw pile
    draws nothing and leaves the game state as it is, the player still to
    move; it only shows the message and leaves one timeout pending.  When
    that timeout fires, the turn passes to the opponent and nothing else
    changes. *)
Theorem clickDrawPile_empty_deck (app : App)
  (Hturn : currentTurn (gameState app) = player)
  (Hstatus : status (gameState app) = playing)
  (Hdeck : deck (gameState app) = []) :
  exec clickDrawPile app
  = mkApp (gameState app) "Deck is empty! Skipping turn."
          (S (pendingSkips app))
  /\ exec skipTimer (exec clickDrawPile app)
     = mkApp (set_currentTurn ai (gameState app))
             "Deck is empty! Skipping turn." (pendingSkips app).
Proof.
  assert (D : disabled (gameState app) = false)
    by (apply disabled_false; now split).
  assert (E : exec clickDrawPile app
              = mkApp (gameState app) "Deck is empty! Skipping turn."
                      (S (pendingSkips app))).
  { unfold clickDrawPile, exec. rewrite D.
    apply (handleDraw_empty app D Hdeck). }
  split; [exact E|]. rewrite E. reflexivity.
Qed.

Lemma clickDrawPile_empty_deck_witness :
  currentTurn (gameState (exec skipTimer (exec clickDrawPile deckRunOut)))
  = ai.
Proof.
  rewrite (proj2 (clickDrawPile_empty_deck deckRunOut
                    eq_refl eq_refl eq_refl)).
  reflexivity.
Defined.

(** X8: out of turn or outside [playing] status, a click on the draw pile
    and [handleDraw] itself change nothing, the message included. *)
Theorem draw_rejected (app : App)
  (Hrej : currentTurn (gameState app) <> player
          \/ status (gameState app) <> playing) :
  exec clickDrawPile app = app
  /\ exec (handleDraw (gameState app)) app = app.
Proof.
  pose proof (disabled_true (gameState app) Hrej) as D.
  split.
  - unfold clickDrawPile, exec. rewrite D. now destruct app.
  - now apply handleDraw_disabled.
Qed.

Lemma draw_rejected_witness :
  exec clickDrawPile aiMustDraw = aiMustDraw.
Proof.
  apply (draw_rejected aiMustDraw). left. discriminate.
Defined.

(** ** The human's eight *)

Lemma lastElem_app {A} (l : list A) (x : A) : Js.lastElem (l ++ [x]) = Some x.
Proof. unfold Js.lastElem. now rewrite rev_unit. Qed.

(** X9: on the player's turn in [playing] status, a click on an eight
    followed by the choice of a suit: the eight is on top of the discard
    pile, the active suit, unchanged while the selector is open, is the
    chosen suit, the status is [playing] again and the turn is the
    opponent's. *)
Theorem eight_then_suit (app : App) (c : Card) (s : Suit)
  (Hturn : currentTurn (gameState app) = player)
  (Hstatus : status (gameState app) = playing)
  (Height : rank c = R8) :
  let gs := gameState app in
  let gs1 := gameState (exec (clickCard c) app) in
  let gs2 := gameState (exec (handleSuitSelect s) (exec (clickCard c) app)) in
  (status gs1 = suit_selection
   /\ activeSuit gs1 = activeSuit gs
   /\ currentTurn gs1 = player)
  /\ (status gs2 = playing
      /\ activeSuit gs2 = Some s
      /\ currentTurn gs2 = ai
      /\ topDiscard gs2 = Some c
      /\ discardPile gs2 = discardPile gs ++ [c]
      /\ playerHand gs2 = filter (otherThan c) (playerHand gs)
      /\ aiHand gs2 = aiHand gs
      /\ deck gs2 = deck gs
      /\ winner gs2 = winner gs).
Proof.
  intros gs gs1 gs2.
  assert (D : disabled (gameState app) = false)
    by (apply disabled_false; now split).
  assert (E : exec (clickCard c) app
              = exec (playCard (gameState app) c true) app)
    by (unfold clickCard, exec; now rewrite D).
  destruct (playCard_eight_player app c Height)
    as ((Hd & Hh & Ho & Hk) & Hs & Hw & Ht & Ha).
  simpl handOf in Hh, Ho.
  subst gs gs1 gs2. rewrite E.
  split; [repeat split; congruence|].
  unfold topDiscard. simpl. rewrite Hd, lastElem_app.
  repeat split; congruence.
Qed.

Lemma eight_then_suit_witness :
  activeSuit
    (gameState (exec (handleSuitSelect clubs)
                     (exec (clickCard (card R8 hearts)) dealt)))
  = Some clubs.
Proof.
  apply (eight_then_suit dealt (card R8 hearts) clubs
           eq_refl eq_refl eq_refl).
Defined.

(** ** Whose cards a transition can move *)

Lemma aiTimer_non_eight (app : App) (c : Card) :
  aiToMove (gameState app) = true ->
  cardToPlay (gameState app) = Some c ->
  Rank_eqb (rank c) R8 = false ->
  exec aiTimer app = exec (playCard (gameState app) c false) app.
Proof.
  intros M C E. unfold exec, aiTimer, aiEffect, aiMove.
  now rewrite M, C, E.
Qed.

Lemma clickCard_cases (app : App) (c : Card) :
  gameState (exec (clickCard c) app) = gameState app
  \/ (disabled (gameState app) = false
      /\ isValidMove (gameState app) c = true
      /\ exec (clickCard c) app
         = exec (playCard (gameState app) c true) app).
Proof.
  unfold clickCard, exec.
  destruct (disabled (gameState app)) eqn:D; [now left|].
  destruct (isValidMove (gameState app) c) eqn:V; [right; auto|].
  left. fold (exec (playCard (gameState app) c true) app).
  now rewrite playCard_invalid_player.
Qed.

Lemma playCard_valid_played (app : App) (c : Card) (isPlayer : bool) :
  isValidMove (gameState app) c = true ->
  (isPlayer = false -> rank c <> R8) ->
  played isPlayer c (gameState app)
         (gameState (exec (playCard (gameState app) c isPlayer) app)).
Proof.
  intros V H.
  destruct (Rank_eqb (rank c) R8) eqn:E8.
  - apply Rank_eqb_eq in E8. destruct isPlayer.
    + now destruct (playCard_eight_player app c E8).
    + now destruct (H eq_refl).
  - assert (H8 : rank c <> R8)
      by (intros X; apply Rank_eqb_eq in X; congruence).
    now destruct (playCard_plain app c isPlayer V H8).
Qed.

(** X10: no transition of one side touches the other side's hand: the
    opponent's timer leaves the player's hand as it is; a click on a card or
    on the draw pile leaves the opponent's hand as it is; the suit choice
    and the pending timeout leave both hands as they are. *)
Theorem hands_are_separate (app : App) (c : Card) (s : Suit) :
  playerHand (gameState (exec aiTimer app)) = playerHand (gameState app)
  /\ aiHand (gameState (exec (clickCard c) app)) = aiHand (gameState app)
  /\ aiHand (gameState (exec clickDrawPile app)) = aiHand (gameState app)
  /\ playerHand (gameState (exec (handleSuitSelect s) app))
     = playerHand (gameState app)
  /\ aiHand (gameState (exec (handleSuitSelect s) app))
     = aiHand (gameState app)
  /\ playerHand (gameState (exec skipTimer app)) = playerHand (gameState app)
  /\ aiHand (gameState (exec skipTimer app)) = aiHand (gameState app).
Proof.
  split; [|split; [|split; [|split; [|split; [|split]]]]].
  - destruct (aiToMove (gameState app)) eqn:M.
    2:{ now rewrite (aiTimer_not_to_move app M). }
    destruct (cardToPlay (gameState app)) as [k|] eqn:C.
    + destruct (aiTimer_plays app k M C) as ((_ & _ & Ho & _) & _).
      exact Ho.
    + destruct (deck (gameState app)) as [|y rest] eqn:E.
      * now rewrite (aiTimer_skips app M C E).
      * destruct (@exists_last _ (y :: rest)) as (d & x & Hdeck);
          [discriminate|].
        rewrite <- E in Hdeck.
        destruct (aiTimer_draws app d x M C Hdeck) as ((_ & _ & Ho & _) & _).
        exact Ho.
  - destruct (clickCard_cases app c) as [E|(_ & V & E)];
      [now rewrite E|].
    rewrite E.
    destruct (playCard_valid_played app c true V) as (_ & _ & Ho & _);
      [discriminate|exact Ho].
  - unfold clickDrawPile, exec.
    destruct (disabled (gameState app)) eqn:D; [reflexivity|].
    fold (exec (handleDraw (gameState app)) app).
    destruct (deck (gameState app)) as [|y rest] eqn:E.
    + now rewrite (handleDraw_empty app D E).
    + destruct (@exists_last _ (y :: rest)) as (d & x & Hdeck);
        [discriminate|].
      rewrite <- E in Hdeck.
      destruct (handleDraw_draws app d x D Hdeck) as ((_ & _ & Ho & _) & _).
      exact Ho.
  - reflexivity.
  - reflexivity.
  - unfold skipTimer, exec. now destruct (pendingSkips app).
  - unfold skipTimer, exec. now destruct (pendingSkips app).
Qed.

(** ** One move per turn *)

(** X11: whenever the opponent's timer is armed, its move ends its turn:
    afterwards the game is over or the player is to move, so the timer is
    not armed again by the opponent's own move. *)
Theorem aiTimer_ends_turn (app : App)
  (Hmove : aiToMove (gameState app) = true) :
  let gs' := gameState (exec aiTimer app) in
  (status gs' = game_over \/ currentTurn gs' = player)
  /\ aiToMove gs' = false
  /\ exec aiTimer (exec aiTimer app) = exec aiTimer app.
Proof.
  intros gs'.
  assert (H : status gs' = game_over \/ currentTurn gs' = player).
  { subst gs'.
    destruct (cardToPlay (gameState app)) as [c|] eqn:C.
    - destruct (Rank_eqb (rank c) R8) eqn:E8.
      + apply Rank_eqb_eq in E8.
        destruct (aiTimer_eight app c Hmove C E8) as (_ & _ & Ht & _).
        now right.
      + assert (H8 : rank c <> R8)
          by (intros X; apply Rank_eqb_eq in X; congruence).
        destruct (cardToPlay_playable _ _ C) as [_ V].
        rewrite (aiTimer_non_eight app c Hmove C E8).
        destruct (playCard_plain app c false V H8) as (_ & Hw & Hn).
        destruct (handOf false
                    (gameState (exec (playCard (gameState app) c false) app)))
          as [|y rest] eqn:F.
        * left. now destruct (Hw eq_refl).
        * right. assert (N : y :: rest <> []) by discriminate.
          destruct (Hn N) as (_ & _ & Ht & _). exact Ht.
    - destruct (deck (gameState app)) as [|y rest] eqn:E.
      + right. now rewrite (aiTimer_skips app Hmove C E).
      + destruct (@exists_last _ (y :: rest)) as (d & x & Hdeck);
          [discriminate|].
        rewrite <- E in Hdeck.
        destruct (aiTimer_draws app d x Hmove C Hdeck) as (_ & _ & Ht & _).
        now right. }
  assert (M : aiToMove gs' = false).
  { destruct (aiToMove gs') eqn:M; [|reflexivity].
    apply aiToMove_true in M. destruct M as (Mt & Ms & _).
    destruct H as [H|H]; congruence. }
  split; [exact H|]. split; [exact M|].
  now apply aiTimer_not_to_move.
Qed.

Lemma aiTimer_ends_turn_witness :
  aiToMove (gameState (exec aiTimer aiMustDraw)) = false.
Proof.
  apply (aiTimer_ends_turn aiMustDraw). reflexivity.
Defined.

(** X12: once a click of the human on a valid card is accepted, or a card is
    drawn from a non-empty deck, the human's cards and the draw pile are
    disabled: further clicks change nothing until another transition
    re-enables them. *)
Theorem human_move_ends_turn (app : App) (c : Card)
  (Hturn : currentTurn (gameState app) = player)
  (Hstatus : status (gameState app) = playing) :
  (isValidMove (gameState app) c = true ->
   disabled (gameState (exec (clickCard c) app)) = true
   /\ forall c',
        exec (clickCard c') (exec (clickCard c) app) = exec (clickCard c) app)
  /\ (deck (gameState app) <> [] ->
      disabled (gameState (exec clickDrawPile app)) = true
      /\ exec clickDrawPile (exec clickDrawPile app) = exec clickDrawPile app).
Proof.
  assert (D : disabled (gameState app) = false)
    by (apply disabled_false; now split).
  split.
  - intros V.
    assert (E : exec (clickCard c) app
                = exec (playCard (gameState app) c true) app)
      by (unfold clickCard, exec; now rewrite D).
    assert (D' : disabled (gameState (exec (clickCard c) app)) = true).
    { rewrite E. apply disabled_true.
      destruct (Rank_eqb (rank c) R8) eqn:E8.
      - apply Rank_eqb_eq in E8.
        destruct (playCard_eight_player app c E8) as (_ & Hs & _).
        right. congruence.
      - assert (H8 : rank c <> R8)
          by (intros X; apply Rank_eqb_eq in X; congruence).
        destruct (playCard_plain app c true V H8) as (_ & Hw & Hn).
        destruct (handOf true
                    (gameState (exec (playCard (gameState app) c true) app)))
          as [|y rest] eqn:F.
        + right. destruct (Hw eq_refl) as (Hs & _). congruence.
        + left. assert (N : y :: rest <> []) by discriminate.
          destruct (Hn N) as (_ & _ & Ht & _). congruence. }
    split; [exact D'|]. intros c'.
    unfold clickCard at 1. unfold exec at 1. rewrite D'.
    simpl. reflexivity.
  - intros Hdeck.
    destruct (@exists_last _ (deck (gameState app)) Hdeck) as (d & x & Ed).
    rewrite (clickDrawPile_draws_eq app d x D Ed).
    split; reflexivity.
Qed.

Lemma human_move_ends_turn_witness :
  disabled (gameState (exec (clickCard (card R4 hearts)) dealt)) = true.
Proof.
  apply (proj1 (human_move_ends_turn dealt (card R4 hearts)
                  eq_refl eq_refl)).
  reflexivity.
Defined.

(** ** The opponent's draws and its last eight *)

Lemma cardToPlay_none_inv (gs : GameState) :
  cardToPlay gs = None ->
  forall x, In x (aiHand gs) -> isValidMove gs x = false.
Proof.
  unfold cardToPlay. intros H x Hx.
  destruct (playableCards gs) as [|first rest] eqn:P.
  - destruct (isValidMove gs x) eqn:V; [|reflexivity].
    assert (I : In x (playableCards gs))
      by (apply filter_In; now split).
    rewrite P in I. contradiction.
  - destruct (Js.find _ (first :: rest)); discriminate.
Qed.

(** X13: the opponent never draws while it holds a playable card: if its
    timer changes the deck, then no card of its hand was a valid move, and
    the change is the move of the deck's last card to the end of its
    hand. *)
Theorem aiTimer_draws_only_when_stuck (app : App)
  (Hdeck : deck (gameState (exec aiTimer app)) <> deck (gameState app)) :
  let gs := gameState app in
  let gs' := gameState (exec aiTimer app) in
  (forall x, In x (aiHand gs) -> isValidMove gs x = false)
  /\ exists x, deck gs = deck gs' ++ [x] /\ aiHand gs' = aiHand gs ++ [x].
Proof.
  intros gs gs'. subst gs gs'.
  destruct (aiToMove (gameState app)) eqn:M.
  2:{ rewrite (aiTimer_not_to_move app M) in Hdeck. congruence. }
  destruct (cardToPlay (gameState app)) as [c|] eqn:C.
  { destruct (aiTimer_plays app c M C) as ((_ & _ & _ & Hk) & _).
    congruence. }
  split; [now apply cardToPlay_none_inv|].
  destruct (deck (gameState app)) as [|y rest] eqn:E.
  { rewrite (aiTimer_skips app M C E) in Hdeck. simpl in Hdeck.
    congruence. }
  destruct (@exists_last _ (y :: rest)) as (d & x & Ed); [discriminate|].
  rewrite <- E in Ed.
  destruct (aiTimer_draws app d x M C Ed) as ((Hk & Hh & _) & _).
  exists x. rewrite <- E. now split.
Qed.

Lemma aiTimer_draws_only_when_stuck_witness :
  isValidMove (gameState aiMustDraw) (card R3 diamonds) = false.
Proof.
  assert (H : deck (gameState (exec aiTimer aiMustDraw))
              <> deck (gameState aiMustDraw))
    by (vm_compute; discriminate).
  apply (proj1 (aiTimer_draws_only_when_stuck aiMustDraw H)).
  simpl. tauto.
Defined.

(** X14: when the opponent plays its last card and that card is an eight,
    the game is over with the opponent as winner, the turn is nevertheless
    handed to the player, and the active suit, chosen from an empty tally,
    is spades. *)
Theorem aiTimer_last_eight (app : App) (c : Card)
  (Hmove : aiToMove (gameState app) = true)
  (Hcard : cardToPlay (gameState app) = Some c)
  (Height : rank c = R8)
  (Hlast : filter (otherThan c) (aiHand (gameState app)) = []) :
  let gs' := gameState (exec aiTimer app) in
  aiHand gs' = []
  /\ status gs' = game_over
  /\ winner gs' = Some ai
  /\ currentTurn gs' = player
  /\ activeSuit gs' = Some spades.
Proof.
  intros gs'.
  destruct (aiTimer_eight app c Hmove Hcard Height)
    as (Ha & (_ & Hh & _) & Ht & Hw & _).
  simpl handOf in Hh. fold gs' in Ha, Hh, Ht, Hw.
  rewrite Hlast in Hh.
  destruct (Hw Hh) as [Hs Hwin].
  repeat split; try assumption.
  rewrite Ha. f_equal. unfold bestSuit, Js.reduce. simpl.
  rewrite !suitCounts_countSuit, Hlast. reflexivity.
Qed.

Lemma aiTimer_last_eight_witness :
  activeSuit (gameState (exec aiTimer aiLastEight)) = Some spades.
Proof.
  apply (aiTimer_last_eight aiLastEight (card R8 spades));
    reflexivity.
Defined.

Lemma countSuit_total (l : list Card) :
  countSuit l hearts + countSuit l diamonds
  + countSuit l clubs + countSuit l spades = List.length l.
Proof.
  unfold countSuit. induction l as [|x l IH]; [reflexivity|].
  cbn [filter]. destruct (suit x); simpl in *; lia.
Qed.

(** X15: the tally of the opponent's suit choice counts, for each suit, the
    cards of the hand other than the played one (by identifier), and its
    four entries add up to the number of those cards. *)
Theorem suitCounts_tally (hand : list Card) (c : Card) :
  (forall s, suitCounts hand c s = countSuit (filter (otherThan c) hand) s)
  /\ suitCounts hand c hearts + suitCounts hand c diamonds
     + suitCounts hand c clubs + suitCounts hand c spades
     = List.length (filter (otherThan c) hand).
Proof.
  split.
  - intros s. apply suitCounts_countSuit.
  - rewrite !suitCounts_countSuit. apply countSuit_total.
Qed.

(** ** Discard pile and active suit along a run *)

Lemma discardInv_same (gs gs' : GameState) :
  discardPile gs' = discardPile gs ->
  activeSuit gs' = activeSuit gs ->
  status gs' = status gs ->
  discardInv gs -> discardInv gs'.
Proof.
  unfold discardInv, topDiscard. intros -> -> ->. trivial.
Qed.

Lemma discardInv_top (gs' : GameState) (c : Card) :
  topDiscard gs' = Some c ->
  (exists s, activeSuit gs' = Some s) ->
  (status gs' = game_over \/ rank c = R8 \/ activeSuit gs' = Some (suit c)) ->
  (status gs' = suit_selection -> rank c = R8) ->
  discardInv gs'.
Proof.
  intros Ht Hs H3 H4. unfold discardInv. rewrite Ht.
  split; [now exists c|]. split; [exact Hs|]. split.
  - intros Hng top [= <-] Hr. destruct H3 as [H|[H|H]]; tauto.
  - intros H. exists c. auto.
Qed.

Lemma topDiscard_pushed (gs gs' : GameState) (c : Card) :
  discardPile gs' = discardPile gs ++ [c] -> topDiscard gs' = Some c.
Proof. intros H. unfold topDiscard. rewrite H. apply lastElem_app. Qed.

(** An accepted play by either side keeps [discardInv]. *)
Lemma playCard_discardInv (app : App) (c : Card) (isPlayer : bool) :
  status (gameState app) = playing ->
  isValidMove (gameState app) c = true ->
  (isPlayer = false -> rank c <> R8) ->
  discardInv (gameState app) ->
  discardInv (gameState (exec (playCard (gameState app) c isPlayer) app)).
Proof.
  intros Hst V Hai (_ & (s & Hs) & _).
  destruct (Rank_eqb (rank c) R8) eqn:E8.
  - apply Rank_eqb_eq in E8.
    destruct isPlayer; [|now destruct (Hai eq_refl)].
    destruct (playCard_eight_player app c E8)
      as ((Hd & _) & Hs' & _ & _ & Ha).
    apply (discardInv_top _ c); auto.
    + now apply (topDiscard_pushed (gameState app)).
    + exists s. congruence.
  - assert (H8 : rank c <> R8)
      by (intros X; apply Rank_eqb_eq in X; congruence).
    destruct (playCard_plain app c isPlayer V H8) as ((Hd & _) & Hw & Hn).
    apply (discardInv_top _ c).
    + now apply (topDiscard_pushed (gameState app)).
    + destruct (handOf isPlayer
                  (gameState (exec (playCard (gameState app) c isPlayer) app)))
        as [|y rest] eqn:F.
      * destruct (Hw eq_refl) as (_ & _ & _ & Ha). exists s. congruence.
      * assert (N : y :: rest <> []) by discriminate.
        destruct (Hn N) as (_ & _ & _ & Ha). eauto.
    + destruct (handOf isPlayer
                  (gameState (exec (playCard (gameState app) c isPlayer) app)))
        as [|y rest] eqn:F.
      * destruct (Hw eq_refl) as (Hs' & _). now left.
      * assert (N : y :: rest <> []) by discriminate.
        destruct (Hn N) as (_ & _ & _ & Ha). right; now right.
    + intros H.
      destruct (handOf isPlayer
                  (gameState (exec (playCard (gameState app) c isPlayer) app)))
        as [|y rest] eqn:F.
      * destruct (Hw eq_refl) as (Hs' & _). congruence.
      * assert (N : y :: rest <> []) by discriminate.
        destruct (Hn N) as (Hs' & _). congruence.
Qed.

Lemma initGame_discardInv (shuffled : list Card) (app app' : App) :
  initGame shuffled app = Some app' -> discardInv (gameState app').
Proof.
  intros H.
  destruct (skipn 8 (skipn 8 shuffled)) as [|y rest] eqn:E.
  { rewrite (initGame_none shuffled app E) in H. discriminate. }
  assert (N : skipn 8 (skipn 8 shuffled) <> []) by (rewrite E; discriminate).
  destruct (initGame_result shuffled app N) as (c & l1 & l2 & _ & _ & I).
  rewrite I in H. injection H as <-.
  apply (discardInv_top _ c); simpl; eauto. discriminate.
Qed.

Lemma step_discardInv (pack : list Card) (app app' : App) :
  step pack app app' ->
  discardInv (gameState app) -> discardInv (gameState app').
Proof.
  intros H Inv. destruct H as [shuffled app app' _ I|c app _|app|s app Hs|app|app].
  - now apply (initGame_discardInv shuffled app).
  - destruct (clickCard_cases app c) as [E|(D & V & E)];
      [now rewrite E|].
    rewrite E. apply disabled_false in D. destruct D as [_ Hst].
    apply playCard_discardInv; auto; discriminate.
  - unfold clickDrawPile, exec.
    destruct (disabled (gameState app)) eqn:D; [exact Inv|].
    fold (exec (handleDraw (gameState app)) app).
    destruct (deck (gameState app)) as [|y rest] eqn:E.
    + now rewrite (handleDraw_empty app D E).
    + destruct (@exists_last _ (y :: rest)) as (d & x & Hdeck);
        [discriminate|].
      rewrite <- E in Hdeck.
      destruct (handleDraw_draws app d x D Hdeck)
        as ((_ & _ & _ & Hd) & _ & _ & Hst & _ & Ha).
      now apply (discardInv_same (gameState app)).
  - destruct Inv as (_ & _ & _ & H4).
    destruct (H4 Hs) as (top & Ht & H8).
    apply (discardInv_top _ top); simpl; eauto; discriminate.
  - destruct (aiToMove (gameState app)) eqn:M.
    2:{ now rewrite (aiTimer_not_to_move app M). }
    pose proof M as M'. apply aiToMove_true in M'.
    destruct M' as (_ & Hst & _).
    destruct (cardToPlay (gameState app)) as [c|] eqn:C.
    + destruct (Rank_eqb (rank c) R8) eqn:E8.
      * pose proof E8 as R. apply Rank_eqb_eq in R.
        destruct (aiTimer_eight app c M C R)
          as (Ha & (Hd & _) & _ & Hw & Hn).
        apply (discardInv_top _ c).
        -- now apply (topDiscard_pushed (gameState app)).
        -- eauto.
        -- right; now left.
        -- intros H.
           destruct (aiHand (gameState (exec aiTimer app))) as [|y rest].
           ++ destruct (Hw eq_refl). congruence.
           ++ assert (N : y :: rest <> []) by discriminate.
              destruct (Hn N). congruence.
      * rewrite (aiTimer_non_eight app c M C E8).
        destruct (cardToPlay_playable _ _ C) as [_ V].
        apply playCard_discardInv; auto.
        intros _ X. apply Rank_eqb_eq in X. congruence.
    + destruct (deck (gameState app)) as [|y rest] eqn:E.
      * rewrite (aiTimer_skips app M C E).
        now apply (discardInv_same (gameState app)).
      * destruct (@exists_last _ (y :: rest)) as (d & x & Hdeck);
          [discriminate|].
        rewrite <- E in Hdeck.
        destruct (aiTimer_draws app d x M C Hdeck)
          as ((_ & _ & _ & Hd) & _ & _ & Hs & _ & Ha).
        now apply (discardInv_same (gameState app)).
  - unfold skipTimer, exec. destruct (pendingSkips app); [exact Inv|].
    now apply (discardInv_same (gameState app)).
Qed.

Lemma reachable_discardInv (pack : list Card) (app : App) :
  reachable pack app -> discardInv (gameState app).
Proof.
  intros H. induction H as [shuffled app' _ I|app app' _ IH Hstep].
  - now apply (initGame_discardInv shuffled initialApp).
  - now apply (step_discardInv pack app app').
Qed.

Lemma reachable_dealt : reachable createDeck dealt.
Proof.
  apply (reach_init createDeck createDeck);
    [apply Permutation_refl|reflexivity].
Qed.

(** X16: in every reachable state the discard pile is not empty and the
    active suit is set: the [null] that [playCard] would store for an eight
    of the opponent never reaches the state, because the opponent's eights
    are handled by its own effect. *)
Theorem reachable_discard_never_empty (pack : list Card) (app : App)
  (Hreach : reachable pack app) :
  discardPile (gameState app) <> []
  /\ (exists top, topDiscard (gameState app) = Some top)
  /\ activeSuit (gameState app) <> None.
Proof.
  destruct (reachable_discardInv pack app Hreach)
    as ((top & Ht) & (s & Hs) & _).
  split; [|split].
  - intros E. unfold topDiscard in Ht. rewrite E in Ht. discriminate.
  - now exists top.
  - congruence.
Qed.

Lemma reachable_discard_never_empty_witness :
  discardPile (gameState afterFirstPlay) <> [].
Proof.
  apply (reachable_discard_never_empty createDeck afterFirstPlay).
  apply (reach_step createDeck dealt); [exact reachable_dealt|].
  apply step_card. simpl. tauto.
Defined.

(** X17: in every reachable state in which the game is not over, a top
    discard card that is not an eight has the active suit. *)
Theorem reachable_activeSuit_follows_top (pack : list Card) (app : App)
  (top : Card)
  (Hreach : reachable pack app)
  (Hopen : status (gameState app) <> game_over)
  (Htop : topDiscard (gameState app) = Some top)
  (Hrank : rank top <> R8) :
  activeSuit (gameState app) = Some (suit top).
Proof.
  destruct (reachable_discardInv pack app Hreach) as (_ & _ & H & _).
  now apply H.
Qed.

Lemma reachable_activeSuit_follows_top_witness :
  activeSuit (gameState afterFirstPlay) = Some hearts.
Proof.
  apply (reachable_activeSuit_follows_top createDeck afterFirstPlay
           (card R4 hearts)).
  - apply (reach_step createDeck dealt); [exact reachable_dealt|].
    apply step_card. simpl. tauto.
  - vm_compute. discriminate.
  - reflexivity.
  - discriminate.
Defined.

(** X18: in every reachable state in [suit_selection] status the top discard
    card is an eight, and clicks on cards and on the draw pile are
    suppressed. *)
Theorem reachable_suit_selection (pack : list Card) (app : App)
  (Hreach : reachable pack app)
  (Hstatus : status (gameState app) = suit_selection) :
  (exists top, topDiscard (gameState app) = Some top /\ rank top = R8)
  /\ (forall c, exec (clickCard c) app = app)
  /\ exec clickDrawPile app = app
  /\ exec aiTimer app = app.
Proof.
  destruct (reachable_discardInv pack app Hreach) as (_ & _ & _ & H).
  split; [now apply H|].
  assert (D : disabled (gameState app) = true)
    by (apply disabled_true; right; congruence).
  assert (M : aiToMove (gameState app) = false).
  { destruct (aiToMove (gameState app)) eqn:M; [|reflexivity].
    apply aiToMove_true in M. destruct M as (_ & M & _). congruence. }
  split; [|split].
  - intros c. unfold clickCard, exec. now rewrite D.
  - unfold clickDrawPile, exec. now rewrite D.
  - now apply aiTimer_not_to_move.
Qed.

Lemma reachable_suit_selection_witness :
  exists top,
    topDiscard (gameState (exec (clickCard (card R8 hearts)) dealt))
    = Some top /\ rank top = R8.
Proof.
  apply (reachable_suit_selection createDeck
           (exec (clickCard (card R8 hearts)) dealt)).
  - apply (reach_step createDeck dealt); [exact reachable_dealt|].
    apply step_card. simpl. tauto.
  - reflexivity.
Defined.

(** ** How the piles change *)

Lemma filter_otherThan_not_in (c : Card) (l : list Card) :
  ~ In c (filter (otherThan c) l).
Proof.
  intros H. apply filter_In in H. destruct H as [_ H].
  assert (E : otherThan c c = false) by now apply otherThan_false.
  congruence.
Qed.

Lemma played_sizes (isPlayer : bool) (c : Card) (gs gs' : GameState) :
  NoDup (map id (allCards gs)) ->
  In c (handOf isPlayer gs) ->
  played isPlayer c gs gs' ->
  S (List.length (handOf isPlayer gs')) = List.length (handOf isPlayer gs)
  /\ List.length (discardPile gs') = S (List.length (discardPile gs))
  /\ topDiscard gs' = Some c
  /\ ~ In c (handOf isPlayer gs').
Proof.
  intros Hnd Hin (Hd & Hh & _).
  pose proof (filter_otherThan_perm c _ (hand_distinct isPlayer gs Hnd) Hin)
    as P.
  apply Permutation_length in P. simpl in P.
  rewrite Hh, Hd. split; [exact P|]. split.
  - rewrite length_app, Nat.add_comm. reflexivity.
  - split; [now apply (topDiscard_pushed gs)|].
    apply filter_otherThan_not_in.
Qed.

(** X19: in a state reachable from a pack with pairwise distinct
    identifiers, an accepted play moves exactly one card: after the human's
    accepted click on a card of the hand, and after the opponent's play of
    the card it chose, the hand of that side is one card shorter and no
    longer holds the card, and the discard pile is one card longer with the
    card on top. *)
Theorem accepted_play_moves_one_card (pack : list Card) (app : App) (c : Card)
  (Hdistinct : NoDup (map id pack))
  (Hreach : reachable pack app) :
  let gs := gameState app in
  (In c (playerHand gs) ->
   currentTurn gs = player -> status gs = playing ->
   isValidMove gs c = true ->
   let gs' := gameState (exec (clickCard c) app) in
   S (List.length (playerHand gs')) = List.length (playerHand gs)
   /\ List.length (discardPile gs') = S (List.length (discardPile gs))
   /\ topDiscard gs' = Some c
   /\ ~ In c (playerHand gs'))
  /\ (aiToMove gs = true -> cardToPlay gs = Some c ->
      let gs' := gameState (exec aiTimer app) in
      S (List.length (aiHand gs')) = List.length (aiHand gs)
      /\ List.length (discardPile gs') = S (List.length (discardPile gs))
      /\ topDiscard gs' = Some c
      /\ ~ In c (aiHand gs')).
Proof.
  intros gs.
  pose proof (partition_distinct pack gs Hdistinct
                (reachable_partitionOf pack app Hdistinct Hreach)) as Hnd.
  split.
  - intros Hin Hturn Hstatus V gs'.
    assert (D : disabled gs = false) by (apply disabled_false; now split).
    assert (E : exec (clickCard c) app = exec (playCard gs c true) app)
      by (unfold clickCard, exec; fold gs; now rewrite D).
    subst gs'. rewrite E.
    apply (played_sizes true c gs); auto.
    apply playCard_valid_played; [exact V|discriminate].
  - intros M C gs'.
    destruct (cardToPlay_playable _ _ C) as [Hin _].
    destruct (aiTimer_plays app c M C) as (Hp & _).
    apply (played_sizes false c gs); auto.
Qed.

Lemma accepted_play_moves_one_card_witness :
  S (List.length
       (playerHand (gameState (exec (clickCard (card R4 hearts)) dealt))))
  = List.length (playerHand (gameState dealt)).
Proof.
  apply (proj1 (accepted_play_moves_one_card createDeck dealt
                  (card R4 hearts)
                  (distinctb_NoDup (map id createDeck) eq_refl) reachable_dealt)).
  - simpl. tauto.
  - reflexivity.
  - reflexivity.
  - reflexivity.
Defined.

(** X20: no transition other than a fresh deal puts a card back: the deck
    stays or loses its last card, the discard pile stays or gains one card
    on top; so an empty deck stays empty and the discard pile is never
    turned over into a new deck. *)
Theorem piles_never_refill (pack : list Card) (app app' : App)
  (Hstep : step pack app app') :
  (exists shuffled, initGame shuffled app = Some app')
  \/ ((deck (gameState app') = deck (gameState app)
       \/ exists x, deck (gameState app) = deck (gameState app') ++ [x])
      /\ (discardPile (gameState app') = discardPile (gameState app)
          \/ exists c, discardPile (gameState app')
                       = discardPile (gameState app) ++ [c])
      /\ (deck (gameState app) = [] -> deck (gameState app') = [])).
Proof.
  destruct (step_effect pack app app' Hstep) as [(shuffled & _ & I)|E].
  { left. now exists shuffled. }
  right.
  assert (H : (deck (gameState app') = deck (gameState app)
               \/ exists x, deck (gameState app) = deck (gameState app') ++ [x])
              /\ (discardPile (gameState app') = discardPile (gameState app)
                  \/ exists c, discardPile (gameState app')
                               = discardPile (gameState app) ++ [c])).
  { destruct E as [ (Hk & Hd & _) _
                  | isPlayer c _ _ _ _ (Hd & _ & _ & Hk) _
                  | isPlayer x _ _ (Hk & _ & _ & Hd) _
                  | (Hk & Hd & _) _ _ _ ].
    - split; now left.
    - split; [now left|right; now exists c].
    - split; [right; now exists x|now left].
    - split; now left. }
  destruct H as [Hk Hd]. split; [exact Hk|]. split; [exact Hd|].
  intros Hempty. destruct Hk as [Hk|(x & Hk)]; [congruence|].
  rewrite Hempty in Hk. symmetry in Hk.
  apply app_eq_nil in Hk. destruct Hk as [_ Hk]. discriminate.
Qed.

Lemma piles_never_refill_witness :
  (exists shuffled,
      initGame shuffled dealt = Some (exec clickDrawPile dealt))
  \/ ((deck (gameState (exec clickDrawPile dealt)) = deck (gameState dealt)
       \/ exists x, deck (gameState dealt)
                    = deck (gameState (exec clickDrawPile dealt)) ++ [x])
      /\ (discardPile (gameState (exec clickDrawPile dealt))
          = discardPile (gameState dealt)
          \/ exists c, discardPile (gameState (exec clickDrawPile dealt))
                       = discardPile (gameState dealt) ++ [c])
      /\ (deck (gameState dealt) = [] ->
          deck (gameState (exec clickDrawPile dealt)) = [])).
Proof.
  apply (piles_never_refill createDeck dealt (exec clickDrawPile dealt)).
  apply step_draw.
Defined.

(** X21: the status [game_over] is left only by a fresh deal: every other
    transition from a state whose game is over leaves the game state as it
    is, except that a pending timeout of [handleDraw] still sets the turn to
    the opponent. *)
Theorem game_over_only_restarts (pack : list Card) (app app' : App)
  (Hstep : step pack app app')
  (Hover : status (gameState app) = game_over) :
  (exists shuffled, initGame shuffled app = Some app')
  \/ gameState app' = gameState app
  \/ gameState app' = set_currentTurn ai (gameState app).
Proof.
  destruct Hstep as [shuffled app app' _ I|c app _|app|s app Hs|app|app].
  - left. now exists shuffled.
  - right; left. now destruct (game_over_is_final app c Hover) as (-> & _).
  - right; left.
    now destruct (game_over_is_final app (card RA hearts) Hover)
      as (_ & -> & _).
  - congruence.
  - right; left.
    now destruct (game_over_is_final app (card RA hearts) Hover)
      as (_ & _ & ->).
  - right. unfold skipTimer, exec.
    destruct (pendingSkips app); [now left|now right].
Qed.

Lemma game_over_only_restarts_witness :
  (exists shuffled,
      initGame shuffled (exec aiTimer aiLastEight)
      = Some (exec aiTimer (exec aiTimer aiLastEight)))
  \/ gameState (exec aiTimer (exec aiTimer aiLastEight))
     = gameState (exec aiTimer aiLastEight)
  \/ gameState (exec aiTimer (exec aiTimer aiLastEight))
     = set_currentTurn ai (gameState (exec aiTimer aiLastEight)).
Proof.
  apply (game_over_only_restarts createDeck (exec aiTimer aiLastEight)
           (exec aiTimer (exec aiTimer aiLastEight))).
  - apply step_ai.
  - reflexivity.
Defined.

(** ** What the next side may play *)

Lemma isValidMove_on_top (gs : GameState) (k top : Card) :
  topDiscard gs = Some top ->
  (isValidMove gs k = true <->
   rank k = R8 \/ activeSuit gs = Some (suit k) \/ rank k = rank top).
Proof.
  intros Ht. unfold isValidMove. rewrite Ht.
  destruct (Rank_eqb (rank k) R8) eqn:E8.
  - apply Rank_eqb_eq in E8. tauto.
  - rewrite orb_true_iff, activeSuit_is_eq, Rank_eqb_eq.
    split; [tauto|]. intros [H|H]; [|exact H].
    apply Rank_eqb_eq in H. congruence.
Qed.

(** X22: an accepted play of a card that is not an eight and does not empty
    the hand sets the rule for the next side: a card is then a valid move
    exactly if it is an eight or has the suit or the rank of the card just
    played. *)
Theorem plain_play_sets_rule (app : App) (c k : Card) (isPlayer : bool)
  (Hvalid : isValidMove (gameState app) c = true)
  (Hplain : rank c <> R8)
  (Hleft : filter (otherThan c) (handOf isPlayer (gameState app)) <> []) :
  let gs' := gameState (exec (playCard (gameState app) c isPlayer) app) in
  currentTurn gs' = (if isPlayer then ai else player)
  /\ (isValidMove gs' k = true <->
      rank k = R8 \/ suit k = suit c \/ rank k = rank c).
Proof.
  intros gs'.
  destruct (playCard_plain app c isPlayer Hvalid Hplain)
    as ((Hd & Hh & _) & _ & Hn).
  fold gs' in Hd, Hh, Hn. rewrite <- Hh in Hleft.
  destruct (Hn Hleft) as (_ & _ & Ht & Ha).
  split; [exact Ht|].
  rewrite (isValidMove_on_top gs' k c (topDiscard_pushed _ gs' c Hd)), Ha.
  split; (intros [H|[H|H]]; [now left| right; left | right; now right]);
    congruence.
Qed.

Lemma plain_play_sets_rule_witness :
  isValidMove (gameState (exec (playCard (gameState dealt)
                                         (card R4 hearts) true) dealt))
              (card R9 hearts) = true.
Proof.
  assert (H1 : rank (card R4 hearts) <> R8) by discriminate.
  assert (H2 : filter (otherThan (card R4 hearts))
                      (handOf true (gameState dealt)) <> [])
    by (vm_compute; discriminate).
  apply (proj2 (plain_play_sets_rule dealt (card R4 hearts) (card R9 hearts)
                  true eq_refl H1 H2)).
  right; left. reflexivity.
Defined.

(** X23: after an eight, the chosen suit is the rule: once the human has
    played an eight and chosen a suit, and once the opponent has played an
    eight, a card is a valid move exactly if it is an eight or has the
    chosen suit. *)
Theorem eight_sets_rule (app : App) (c k : Card)
  (Height : rank c = R8) :
  (currentTurn (gameState app) = player ->
   status (gameState app) = playing ->
   forall s,
     isValidMove
       (gameState (exec (handleSuitSelect s) (exec (clickCard c) app))) k
     = true
     <-> rank k = R8 \/ suit k = s)
  /\ (aiToMove (gameState app) = true ->
      cardToPlay (gameState app) = Some c ->
      isValidMove (gameState (exec aiTimer app)) k = true
      <-> rank k = R8 \/ suit k = bestSuit (aiHand (gameState app)) c).
Proof.
  split.
  - intros Hturn Hstatus s.
    assert (D : disabled (gameState app) = false)
      by (apply disabled_false; now split).
    assert (E : exec (clickCard c) app
                = exec (playCard (gameState app) c true) app)
      by (unfold clickCard, exec; now rewrite D).
    destruct (playCard_eight_player app c Height) as ((Hd & _) & _).
    rewrite E.
    rewrite (isValidMove_on_top _ k c).
    + simpl. rewrite Height. split.
      * intros [H|[H|H]]; [now left|right; congruence|now left].
      * intros [H|H]; [now left|right; left; congruence].
    + unfold topDiscard. simpl. rewrite Hd. apply lastElem_app.
  - intros M C.
    destruct (aiTimer_eight app c M C Height) as (Ha & (Hd & _) & _).
    rewrite (isValidMove_on_top _ k c
               (topDiscard_pushed (gameState app) _ c Hd)).
    rewrite Ha, Height. split.
    + intros [H|[H|H]]; [now left|right; congruence|now left].
    + intros [H|H]; [now left|right; left; congruence].
Qed.

Lemma eight_sets_rule_witness :
  isValidMove (gameState (exec aiTimer aiHoldsEight)) (card R2 diamonds)
  = true.
Proof.
  apply (proj2 (eight_sets_rule aiHoldsEight (card R8 spades)
                  (card R2 diamonds) eq_refl)
               eq_refl eq_refl).
  right. reflexivity.
Defined.

(** ** What the page shows *)

(** X24: the highlight on a card of the player's hand is sound: a click on
    a card that is not highlighted never changes the game state, and in
    [playing] status a click on a highlighted card is accepted and puts the
    card on top of the discard pile. *)
Theorem highlight_sound (app : App) (c : Card) :
  (isHighlighted (gameState app) c = false ->
   gameState (exec (clickCard c) app) = gameState app)
  /\ (isHighlighted (gameState app) c = true ->
      status (gameState app) = playing ->
      played true c (gameState app) (gameState (exec (clickCard c) app))
      /\ topDiscard (gameState (exec (clickCard c) app)) = Some c).
Proof.
  unfold isHighlighted. split.
  - intros H.
    destruct (clickCard_cases app c) as [E|(D & V & _)]; [exact E|].
    apply disabled_false in D. destruct D as [Ht _].
    apply (proj2 (Side_eqb_eq _ _)) in Ht. rewrite V, Ht in H. discriminate.
  - intros H Hst. apply andb_true_iff in H. destruct H as [V Ht].
    apply Side_eqb_eq in Ht.
    assert (D : disabled (gameState app) = false)
      by (apply disabled_false; now split).
    assert (E : exec (clickCard c) app
                = exec (playCard (gameState app) c true) app)
      by (unfold clickCard, exec; now rewrite D).
    rewrite E.
    assert (P : played true c (gameState app)
                  (gameState (exec (playCard (gameState app) c true) app)))
      by (apply playCard_valid_played; [exact V|discriminate]).
    split; [exact P|].
    destruct P as (Hd & _). now apply (topDiscard_pushed (gameState app)).
Qed.

Lemma highlight_sound_witness :
  gameState (exec (clickCard (card R5 hearts)) dealt) = gameState dealt.
Proof.
  apply (proj1 (highlight_sound dealt (card R5 hearts))). reflexivity.
Defined.

(** X25: in every reachable state the game-over modal is shown exactly when
    the status is [game_over], its guard on the winner never hiding it, and
    it is never shown together with the suit selector. *)
Theorem reachable_modals (pack : list Card) (app : App)
  (Hreach : reachable pack app) :
  (showsGameOver (gameState app) = true
   <-> status (gameState app) = game_over)
  /\ (showsSuitSelector (gameState app) = true
      <-> status (gameState app) = suit_selection)
  /\ (showsGameOver (gameState app) && showsSuitSelector (gameState app)
      = false).
Proof.
  destruct (reachable_winnerIffOver pack app Hreach) as [Hover _].
  unfold showsGameOver, showsSuitSelector.
  split; [|split].
  - rewrite andb_true_iff, GameStatus_eqb_eq. split; [tauto|].
    intros H. split; [exact H|].
    destruct (Hover H) as [w Hw]. now rewrite Hw.
  - apply GameStatus_eqb_eq.
  - destruct (status (gameState app)); simpl;
      try reflexivity; apply andb_false_r.
Qed.

Lemma reachable_modals_witness :
  showsGameOver (gameState dealt) && showsSuitSelector (gameState dealt)
  = false.
Proof.
  apply (reachable_modals createDeck dealt reachable_dealt).
Defined.
